(** * Smart task manager: a shallow embedding of [backend/app.py]

    The backend is a Flask application over a relational store with two
    tables ([User], [Task]).  Every route is one or two queries.  The
    embedding keeps that shape:

    - a table is the list of its rows, in the order the store returns them;
    - the store is a record of the two tables and of the two primary-key
      sequences;
    - a route handler is a function from the store (and the decoded
      request) to the new store and a result, a failure being the
      exception that escapes the handler or the error response it builds;
    - the clock ([date.today()]) and the salt drawn by the password hasher
      are explicit arguments.

    Text columns are strings over Rocq's 256-character alphabet and are
    never NULL; a request carries every field the handler reads, each a
    string.  The declared column widths ([String(80)] ...) are not
    enforced by the model.  The handlers guarded by [jwt_required] take
    the identity decoded from the token as their [user_id] argument. *)

From Stdlib Require Import ZArith List String Ascii Bool Lia PeanoNat Permutation.
From Stdlib Require Import DecimalString.
From Stdlib Require DecimalZ DecimalPos.
Import ListNotations.

Local Open Scope string_scope.
Local Open Scope Z_scope.

Set Implicit Arguments.

(** ** Calendar dates ([datetime.date]) *)

Module Date.

Record date : Type := mkdate { year : nat; month : nat; day : nat }.

Definition is_leap (y : nat) : bool :=
  ((y mod 4 =? 0) && (negb (y mod 100 =? 0) || (y mod 400 =? 0)))%nat.

Definition days_in_month (y m : nat) : nat :=
  match m with
  | 2 => if is_leap y then 29 else 28
  | 4 | 6 | 9 | 11 => 30
  | _ => 31
  end%nat.

(** [datetime.MAXYEAR] *)
Definition max_year : nat := 9 * 1000 + 999.

(** The checks of the [date(year, month, day)] constructor. *)
Definition valid (y m d : nat) : bool :=
  ((1 <=? y) && (y <=? max_year) && (1 <=? m) && (m <=? 12)
   && (1 <=? d) && (d <=? days_in_month y m))%nat.

(** [date(year, month, day)]: [None] stands for the [ValueError] the
    constructor raises on a field out of range. *)
Definition make (y m d : nat) : option date :=
  if valid y m d then Some (mkdate y m d) else None.

(** Dates compare as the triples (year, month, day). *)
Definition eqb (a b : date) : bool :=
  ((year a =? year b) && (month a =? month b) && (day a =? day b))%nat.

Definition ltb (a b : date) : bool :=
  ((year a <? year b)
   || ((year a =? year b)
       && ((month a <? month b)
           || ((month a =? month b) && (day a <? day b)))))%nat.

(** "Strictly before", as a proposition. *)
Definition lt (a b : date) : Prop :=
  (year a < year b
   \/ (year a = year b
       /\ (month a < month b \/ (month a = month b /\ day a < day b))))%nat.

Definition digit (n : nat) : ascii := ascii_of_nat (48 + n mod 10).

Definition pad2 (n : nat) : string :=
  String (digit (n / 10)) (String (digit n) EmptyString).

Definition pad4 (n : nat) : string :=
  String (digit (n / 1000)) (String (digit (n / 100)) (pad2 n)).

(** [date.isoformat()] *)
Definition isoformat (d : date) : string :=
  pad4 (year d) ++ "-" ++ pad2 (month d) ++ "-" ++ pad2 (day d).

End Date.

Abbreviation date := Date.date.

(** ** [datetime.strptime(s, "%Y-%m-%d")]

    The standard library compiles the format to the regular expression
    [(?P<Y>\d\d\d\d)-(?P<m>1[0-2]|0[1-9]|[1-9])-(?P<d>3[01]|[12]\d|0[1-9]|[1-9]| [1-9])],
    matches it at the start of the string, rejects unconverted trailing
    text, converts the groups with [int] and builds the date.  A group is
    modelled by the list of its matches in the order the backtracking
    matcher tries them, each with the text left to read. *)

Module Strptime.

Definition is_digit (c : ascii) : bool :=
  ((48 <=? nat_of_ascii c) && (nat_of_ascii c <=? 57))%nat.

Definition digit_val (c : ascii) : nat := (nat_of_ascii c - 48)%nat.

Definition in_range (lo hi : nat) (c : ascii) : bool :=
  is_digit c && ((lo <=? digit_val c) && (digit_val c <=? hi))%nat.

Definition matches : Type := list (nat * string).

(** [\d\d\d\d] *)
Definition group_Y (s : string) : matches :=
  match s with
  | String a (String b (String c (String d rest))) =>
      if is_digit a && is_digit b && is_digit c && is_digit d
      then [((1000 * digit_val a + 100 * digit_val b
              + 10 * digit_val c + digit_val d)%nat, rest)]
      else []
  | _ => []
  end.

(** A literal character of the format. *)
Definition literal (c : ascii) (s : string) : list string :=
  match s with
  | String a rest => if Ascii.eqb a c then [rest] else []
  | EmptyString => []
  end.

(** One alternative made of two character classes. *)
Definition two (p q : ascii -> bool) (s : string) : matches :=
  match s with
  | String a (String b rest) =>
      if p a && q b then [((10 * digit_val a + digit_val b)%nat, rest)] else []
  | _ => []
  end.

(** The alternative [[1-9]]. *)
Definition one (s : string) : matches :=
  match s with
  | String a rest => if in_range 1 9 a then [(digit_val a, rest)] else []
  | EmptyString => []
  end.

(** The alternative [ [1-9]]: a space, then a digit; [int] skips the space. *)
Definition space_one (s : string) : matches :=
  match s with
  | String a rest => if Ascii.eqb a " " then one rest else []
  | EmptyString => []
  end.

(** [1[0-2]|0[1-9]|[1-9]] *)
Definition group_m (s : string) : matches :=
  (two (in_range 1 1) (in_range 0 2) s
   ++ two (in_range 0 0) (in_range 1 9) s
   ++ one s)%list.

(** [3[01]|[12]\d|0[1-9]|[1-9]| [1-9]] *)
Definition group_d (s : string) : matches :=
  (two (in_range 3 3) (in_range 0 1) s
   ++ two (in_range 1 2) is_digit s
   ++ two (in_range 0 0) (in_range 1 9) s
   ++ one s
   ++ space_one s)%list.

(** All the ways the whole expression matches a prefix of [s], in the
    matcher's order: [re.match] returns the first. *)
Definition format_regex (s : string) : list (nat * nat * nat * string) :=
  flat_map (fun '(y, s1) =>
    flat_map (fun s2 =>
      flat_map (fun '(m, s3) =>
        flat_map (fun s4 =>
          map (fun '(d, s5) => (y, m, d, s5)) (group_d s4))
          (literal "-" s3))
        (group_m s2))
      (literal "-" s1))
    (group_Y s).

(** [None] is the [ValueError]: no match, unconverted data remains, or
    a day out of range for the month (or year 0). *)
Definition strptime (s : string) : option date :=
  match format_regex s with
  | [] => None
  | (y, m, d, rest) :: _ =>
      match rest with
      | EmptyString => Date.make y m d
      | String _ _ => None
      end
  end.

End Strptime.


(** The texts [strptime] reads as a month and as a day of the month:
    two digits, or one digit without the leading zero; for the day also
    a space and one digit. *)
Definition month_text (m : nat) (t : string) : Prop :=
  t = Date.pad2 m \/ ((m < 10)%nat /\ t = String (Date.digit m) "").

Definition day_text (d : nat) (t : string) : Prop :=
  t = Date.pad2 d
  \/ ((d < 10)%nat
      /\ (t = String (Date.digit d) "" \/ t = String " " (String (Date.digit d) ""))).

(** [date_text d s]: [s] is the four-digit year of [d], its month and
    its day, separated by [-]. *)
Definition date_text (d : date) (s : string) : Prop :=
  exists mt dt,
    month_text (Date.month d) mt /\ day_text (Date.day d) dt
    /\ s = Date.pad4 (Date.year d) ++ "-" ++ mt ++ "-" ++ dt.

Definition calendar_date (d : date) : Prop :=
  Date.valid (Date.year d) (Date.month d) (Date.day d) = true.

(** The specification's words, "a calendar date in YYYY-MM-DD form":
    four digits, two digits, two digits. *)
Definition yyyy_mm_dd (s : string) : Prop :=
  exists d, calendar_date d /\ s = Date.isoformat d.

(** ** The two tables *)

Module User.
Record t : Type := mk
  { id : Z;               (* primary key *)
    username : string;    (* unique *)
    password : string }.
End User.

Module Task.
Record t : Type := mk
  { id : Z;               (* primary key *)
    title : string;
    status : string;      (* default "Pending" *)
    priority : string;
    due_date : date;
    user_id : Z }.        (* foreign key to User.id *)

(** The assignment [task.status = v]. *)
Definition set_status (v : string) (r : t) : t :=
  mk (id r) (title r) v (priority r) (due_date r) (user_id r).
End Task.

(** The store: the rows of both tables and the next value of each
    primary-key sequence. *)
Record store : Type := mkstore
  { users : list User.t;
    tasks : list Task.t;
    user_id_seq : Z;
    task_id_seq : Z }.

(** The store after [db.create_all()] on an empty database. *)
Definition empty_store : store := mkstore [] [] 1 1.

(** ** Failures and results *)

Inductive constraint : Type := UniqueViolation | ForeignKeyViolation.

Inductive error : Type :=
| IntegrityError (c : constraint)   (* raised by [db.session.commit()] *)
| ValueError                        (* raised by [datetime.strptime] *)
| NotFound                          (* the 404 response of [complete_task] *)
| InvalidCredentials.               (* the 401 response of [login] *)


Inductive result (A : Type) : Type :=
| Ok (a : A)
| Err (e : error).

Arguments Ok {A} a.
Arguments Err {A} e.

(** ** Queries

    [Model.query.filter(c1, ..., cn)] keeps the rows that satisfy every
    criterion; [.all()], [.count()] and [.first()] read the outcome. *)

Section Query.
Context {row : Type}.

Definition criterion : Type := row -> bool.

Definition query_filter (criteria : list criterion) (table : list row) : list row :=
  filter (fun r => forallb (fun c => c r) criteria) table.

Definition all (q : list row) : list row := q.

Definition count (q : list row) : Z := Z.of_nat (List.length q).

Definition first (q : list row) : option row :=
  match q with
  | [] => None
  | r :: _ => Some r
  end.
End Query.

(** The criteria the handlers use. *)
Definition user_id_is (uid : Z) : criterion := fun r => Task.user_id r =? uid.
Definition id_is (i : Z) : criterion := fun r => Task.id r =? i.
Definition status_is (v : string) : criterion := fun r => String.eqb (Task.status r) v.
Definition status_is_not (v : string) : criterion := fun r => negb (String.eqb (Task.status r) v).
Definition priority_is (v : string) : criterion := fun r => String.eqb (Task.priority r) v.
Definition due_before (d : date) : criterion := fun r => Date.ltb (Task.due_date r) d.
Definition due_on (d : date) : criterion := fun r => Date.eqb (Task.due_date r) d.
Definition username_is (n : string) (u : User.t) : bool := String.eqb (User.username u) n.

(** ** Responses *)

(** One element of the JSON array of [GET /tasks]. *)
Record task_json : Type := mk_task_json
  { j_id : Z; j_title : string; j_status : string; j_priority : string; j_due_date : string }.

Definition to_json (r : Task.t) : task_json :=
  mk_task_json (Task.id r) (Task.title r) (Task.status r) (Task.priority r)
               (Date.isoformat (Task.due_date r)).

Record stats_json : Type := mk_stats_json
  { completed : Z; pending : Z; Low : Z; Medium : Z; High : Z }.

Record reminders_json : Type := mk_reminders_json
  { overdue : list string; today_titles : list string }.

(** [str(n)] of an integer, as the f-string of the job formats it. *)
Definition str (n : Z) : string := NilZero.string_of_int (Z.to_int n).

(** ** The handlers *)

Section Handlers.

(** The password hasher of the web toolkit: [generate_password_hash pw salt]
    is the stored string for password [pw] when the hasher draws [salt];
    [check_password_hash stored pw] verifies a password. *)
Variable generate_password_hash : string -> string -> string.
Variable check_password_hash : string -> string -> bool.

(** [POST /register].  The row is inserted at commit; the store rejects
    it when the username is taken.  The primary key comes from the
    sequence, which advances whether or not the insert succeeds. *)
Definition register (st : store) (username password salt : string)
  : store * result string :=
  let user := User.mk (user_id_seq st) username
                      (generate_password_hash password salt) in
  if existsb (username_is username) (users st)
  then (mkstore (users st) (tasks st) (user_id_seq st + 1) (task_id_seq st),
        Err (IntegrityError UniqueViolation))
  else (mkstore (users st ++ [user])%list (tasks st) (user_id_seq st + 1) (task_id_seq st),
        Ok "User registered").

(** [POST /login]: the result is the identity put in the token. *)
Definition login (st : store) (username password : string)
  : store * result Z :=
  match first (filter (username_is username) (users st)) with
  | Some user =>
      if check_password_hash (User.password user) password
      then (st, Ok (User.id user))
      else (st, Err InvalidCredentials)
  | None => (st, Err InvalidCredentials)
  end.

(** [POST /tasks].  [strptime] is evaluated while the row is built, so
    its failure leaves the session untouched; at commit the store
    checks the foreign key. *)
Definition create_task (st : store) (user_id : Z) (title priority due_date : string)
  : store * result string :=
  match Strptime.strptime due_date with
  | None => (st, Err ValueError)
  | Some d =>
      let task := Task.mk (task_id_seq st) title "Pending" priority d user_id in
      if existsb (fun u => User.id u =? user_id) (users st)
      then (mkstore (users st) (tasks st ++ [task])%list (user_id_seq st) (task_id_seq st + 1),
            Ok "Task created")
      else (mkstore (users st) (tasks st) (user_id_seq st) (task_id_seq st + 1),
            Err (IntegrityError ForeignKeyViolation))
  end.

(** [GET /tasks] *)
Definition list_tasks (st : store) (user_id : Z) : store * result (list task_json) :=
  let tasks := all (query_filter [user_id_is user_id] (tasks st)) in
  (st, Ok (map to_json tasks)).

(** [PUT /tasks/<id>/complete].  The assignment to the row found is
    flushed at commit as an update of the row with that primary key. *)
Definition complete_task (st : store) (user_id id : Z) : store * result string :=
  match first (query_filter [id_is id; user_id_is user_id] (tasks st)) with
  | None => (st, Err NotFound)
  | Some task =>
      (mkstore (users st)
               (map (fun r => if Task.id r =? Task.id task
                              then Task.set_status "Completed" r else r)
                    (tasks st))
               (user_id_seq st) (task_id_seq st),
       Ok "Completed")
  end.

(** [GET /stats] *)
Definition stats (st : store) (user_id : Z) : store * result stats_json :=
  let total := count (query_filter [user_id_is user_id] (tasks st)) in
  let completed := count (query_filter [user_id_is user_id; status_is "Completed"] (tasks st)) in
  let pending := total - completed in
  (st, Ok (mk_stats_json completed pending
    (count (query_filter [user_id_is user_id; priority_is "Low"] (tasks st)))
    (count (query_filter [user_id_is user_id; priority_is "Medium"] (tasks st)))
    (count (query_filter [user_id_is user_id; priority_is "High"] (tasks st))))).

(** [GET /reminders]; [today] is the value of [date.today()]. *)
Definition reminders (st : store) (user_id : Z) (today : date)
  : store * result reminders_json :=
  let overdue := all (query_filter
    [user_id_is user_id; status_is_not "Completed"; due_before today] (tasks st)) in
  let today_tasks := all (query_filter
    [user_id_is user_id; status_is_not "Completed"; due_on today] (tasks st)) in
  (st, Ok (mk_reminders_json (map Task.title overdue) (map Task.title today_tasks))).

(** The scheduled job; the second component is what it prints. *)
Definition reminder_job (st : store) (today : date) : store * list string :=
  let overdue := count (query_filter [status_is_not "Completed"; due_before today] (tasks st)) in
  if 0 <? overdue
  then (st, ["[REMINDER] " ++ str overdue ++ " overdue tasks"])
  else (st, []).

End Handlers.

(** ** The service as a transition system *)

Inductive request : Type :=
| Register (username password salt : string)
| Login (username password : string)
| CreateTask (user_id : Z) (title priority due_date : string)
| ListTasks (user_id : Z)
| CompleteTask (user_id id : Z)
| Stats (user_id : Z)
| Reminders (user_id : Z) (today : date)
| ReminderJob (today : date).

Section Service.

Variable generate_password_hash : string -> string -> string.
Variable check_password_hash : string -> string -> bool.

(** The store after one request (or one tick of the job). *)
Definition handle (st : store) (r : request) : store :=
  match r with
  | Register u p s => fst (register generate_password_hash st u p s)
  | Login u p => fst (login check_password_hash st u p)
  | CreateTask uid t p d => fst (create_task st uid t p d)
  | ListTasks uid => fst (list_tasks st uid)
  | CompleteTask uid i => fst (complete_task st uid i)
  | Stats uid => fst (stats st uid)
  | Reminders uid d => fst (reminders st uid d)
  | ReminderJob d => fst (reminder_job st d)
  end.

Definition run (st : store) (rs : list request) : store :=
  fold_left handle rs st.

End Service.

(** ** Vocabulary of the properties *)

(** What the store's constraints guarantee: primary keys and usernames
    are unique, keys come from the sequences, every task has an owner in
    the user table. *)
Record wf (st : store) : Prop := mkwf
  { wf_user_ids : NoDup (map User.id (users st));
    wf_usernames : NoDup (map User.username (users st));
    wf_task_ids : NoDup (map Task.id (tasks st));
    wf_user_seq : Forall (fun u => User.id u < user_id_seq st) (users st);
    wf_task_seq : Forall (fun r => Task.id r < task_id_seq st) (tasks st);
    wf_owner : Forall (fun r => In (Task.user_id r) (map User.id (users st))) (tasks st) }.

(** [exactly P l ks]: [ks] is made of exactly the elements of [l] that
    satisfy [P], each as often as in [l] and in the same order. *)
Inductive exactly {A : Type} (P : A -> Prop) : list A -> list A -> Prop :=
| exactly_nil : exactly P [] []
| exactly_keep x l ks : P x -> exactly P l ks -> exactly P (x :: l) (x :: ks)
| exactly_skip x l ks : ~ P x -> exactly P l ks -> exactly P (x :: l) ks.

Definition owned_by (uid : Z) (r : Task.t) : Prop := Task.user_id r = uid.

Definition is_completed (r : Task.t) : Prop := Task.status r = "Completed".

Definition has_priority (p : string) (r : Task.t) : Prop := Task.priority r = p.

(** The tasks of a user, in store order. *)
Definition own_tasks (uid : Z) (st : store) : list Task.t :=
  filter (fun r => Task.user_id r =? uid) (tasks st).

(** The row with a given primary key. *)
Definition lookup_task (st : store) (i : Z) : option Task.t :=
  find (fun r => Task.id r =? i) (tasks st).

(** The only fields of two versions of a row that may differ is the status. *)
Definition same_but_status (r r' : Task.t) : Prop :=
  Task.id r' = Task.id r /\ Task.title r' = Task.title r
  /\ Task.priority r' = Task.priority r /\ Task.due_date r' = Task.due_date r
  /\ Task.user_id r' = Task.user_id r.

(** The update [complete_task] commits: the row with primary key [i]
    gets the status Completed, every other row is kept. *)
Definition mark_completed (i : Z) (l : list Task.t) : list Task.t :=
  map (fun r => if Task.id r =? i then Task.set_status "Completed" r else r) l.


(** There is a task with primary key [i] that belongs to [uid]. *)
Definition owns (st : store) (uid i : Z) : Prop :=
  exists r, In r (tasks st) /\ Task.id r = i /\ owned_by uid r.

(** The store without the row of primary key [i]. *)
Definition forget (i : Z) (st : store) : store :=
  mkstore (users st) (filter (fun r => negb (Task.id r =? i)) (tasks st))
          (user_id_seq st) (task_id_seq st).

(** The three priority levels of the specification. *)
Definition known_priority (r : Task.t) : Prop :=
  has_priority "Low" r \/ has_priority "Medium" r \/ has_priority "High" r.

(** The conditions of the two reminder lists and of the job. *)
Definition overdue_for (uid : Z) (today : date) (r : Task.t) : Prop :=
  owned_by uid r /\ ~ is_completed r /\ Date.lt (Task.due_date r) today.

Definition due_today_for (uid : Z) (today : date) (r : Task.t) : Prop :=
  owned_by uid r /\ ~ is_completed r /\ Task.due_date r = today.

Definition overdue_anyone (today : date) (r : Task.t) : Prop :=
  ~ is_completed r /\ Date.lt (Task.due_date r) today.

(** A hasher for the examples: it is not a hash, it only has the shape
    [method$salt$digest] of the stored strings. *)
Definition toy_hash (pw salt : string) : string := "toy$" ++ salt ++ "$" ++ pw.
Definition toy_check (stored pw : string) : bool :=
  let n := String.length ("$" ++ pw) in
  String.eqb (substring (String.length stored - n) n stored) ("$" ++ pw).

(** A small history for the examples: two users, three tasks. *)
Definition demo_requests : list request :=
  [Register "alice" "wonderland" "x1"; Register "bob" "builder" "x2";
   CreateTask 1 "Pay rent" "High" "2024-01-01";
   CreateTask 2 "Walk dog" "Low" "2024-06-01";
   CreateTask 1 "File taxes" "Urgent" "2024-06-01"].

Definition demo_store : store :=
  Eval vm_compute in run toy_hash toy_check empty_store demo_requests.

Definition june_1 : date := Date.mkdate 2024 6 1.

(** The first task of the history, as stored. *)
Definition pay_rent : Task.t :=
  Task.mk 1 "Pay rent" "Pending" "High" (Date.mkdate 2024 1 1) 1.

(** ** Start-up: [init_db]

    The loop calls [db.create_all()] until it succeeds or the five
    retries are used up.  [attempt k] tells whether the call number [k]
    (from 0) succeeds or raises [OperationalError]; what the function
    does is the sequence of its calls, prints and sleeps. *)

Inductive event : Type :=
| CreateAll
| Print (line : string)
| Sleep (seconds : nat).

Fixpoint init_db_loop (retries : nat) (attempt : nat -> bool) (k : nat) : list event :=
  match retries with
  | O => []
  | S retries' =>
      if attempt k
      then [CreateAll; Print "Database initialized"]
      else CreateAll :: Print "Waiting for database..." :: Sleep 3
             :: init_db_loop retries' attempt (S k)
  end.

Definition init_db (attempt : nat -> bool) : list event := init_db_loop 5 attempt 0.

(** One failed round of the loop. *)
Definition failed_round : list event :=
  [CreateAll; Print "Waiting for database..."; Sleep 3].

Fixpoint rounds (n : nat) : list event :=
  match n with
  | O => []
  | S n' => (failed_round ++ rounds n')%list
  end.

Definition is_call (e : event) : bool :=
  match e with CreateAll => true | _ => false end.

Definition slept (e : event) : nat :=
  match e with Sleep n => n | _ => O end.

(** ** More vocabulary *)

(** The two values the code ever writes in the status column. *)
Definition known_status (r : Task.t) : Prop :=
  Task.status r = "Pending" \/ Task.status r = "Completed".

(** What the handlers guarantee about the rows besides the constraints
    of the store: a status the code writes, a due date that exists. *)
Record sane (st : store) : Prop := mksane
  { sane_status : Forall known_status (tasks st);
    sane_dates : Forall (fun r => calendar_date (Task.due_date r)) (tasks st) }.


(** The overdue titles [reminders] returns. *)
Definition overdue_titles (st : store) (uid : Z) (today : date) : list string :=
  match snd (reminders st uid today) with
  | Ok r => overdue r
  | Err _ => []
  end.

Definition today_titles_of (st : store) (uid : Z) (today : date) : list string :=
  match snd (reminders st uid today) with
  | Ok r => today_titles r
  | Err _ => []
  end.

(** The rows [GET /tasks] returns. *)
Definition listed (st : store) (uid : Z) : list task_json :=
  match snd (list_tasks st uid) with
  | Ok rows => rows
  | Err _ => []
  end.

(** The numbers [GET /stats] returns. *)
Definition stats_of (st : store) (uid : Z) : stats_json :=
  match snd (stats st uid) with
  | Ok s => s
  | Err _ => mk_stats_json 0 0 0 0 0
  end.

(** * Properties *)

(** ** Dates *)

Lemma date_ltb_lt a b : Date.ltb a b = true <-> Date.lt a b.
Proof.
  unfold Date.ltb, Date.lt.
  rewrite !orb_true_iff, !andb_true_iff, !orb_true_iff, !andb_true_iff.
  rewrite !Nat.ltb_lt, !Nat.eqb_eq. tauto.
Qed.

Lemma date_eqb_eq a b : Date.eqb a b = true <-> a = b.
Proof.
  unfold Date.eqb. rewrite !andb_true_iff, !Nat.eqb_eq.
  destruct a, b; simpl; split.
  - intros [[-> ->] ->]; reflexivity.
  - intros [= -> -> ->]; auto.
Qed.

Lemma date_lt_irrefl a : ~ Date.lt a a.
Proof. unfold Date.lt; lia. Qed.

Lemma date_lt_trans a b c : Date.lt a b -> Date.lt b c -> Date.lt a c.
Proof. unfold Date.lt; lia. Qed.

Lemma date_trichotomy a b : Date.lt a b \/ a = b \/ Date.lt b a.
Proof.
  destruct a as [y m d], b as [y' m' d']; unfold Date.lt; simpl.
  destruct (Nat.lt_total y y') as [?|[->|?]]; [left; lia | | right; right; lia].
  destruct (Nat.lt_total m m') as [?|[->|?]]; [left; lia | | right; right; lia].
  destruct (Nat.lt_total d d') as [?|[->|?]];
    [left; lia | right; left; reflexivity | right; right; lia].
Qed.

(** ** Criteria and queries *)

Lemma user_id_is_true uid r : user_id_is uid r = true <-> owned_by uid r.
Proof. apply Z.eqb_eq. Qed.

Lemma id_is_true i r : id_is i r = true <-> Task.id r = i.
Proof. apply Z.eqb_eq. Qed.

Lemma status_is_true v r : status_is v r = true <-> Task.status r = v.
Proof. apply String.eqb_eq. Qed.

Lemma status_is_not_true v r : status_is_not v r = true <-> Task.status r <> v.
Proof.
  unfold status_is_not. rewrite negb_true_iff, <- String.eqb_neq. tauto.
Qed.

Lemma priority_is_true v r : priority_is v r = true <-> has_priority v r.
Proof. apply String.eqb_eq. Qed.

Lemma due_before_true d r : due_before d r = true <-> Date.lt (Task.due_date r) d.
Proof. apply date_ltb_lt. Qed.

Lemma due_on_true d r : due_on d r = true <-> Task.due_date r = d.
Proof. apply date_eqb_eq. Qed.

Create Rewrite HintDb criteria.
#[local] Hint Rewrite user_id_is_true id_is_true status_is_true status_is_not_true
  priority_is_true due_before_true due_on_true : criteria.

Section QueryFacts.
Context {row : Type}.
Implicit Types (cs : list (@criterion row)) (l : list row).

Lemma in_query_filter cs l r :
  In r (query_filter cs l) <-> In r l /\ forall c, In c cs -> c r = true.
Proof.
  unfold query_filter. rewrite filter_In, forallb_forall. tauto.
Qed.

Lemma query_filter_app cs l l' :
  query_filter cs (l ++ l') = (query_filter cs l ++ query_filter cs l')%list.
Proof. apply filter_app. Qed.

Lemma first_none l : first l = None <-> l = [].
Proof. destruct l; simpl; split; congruence. Qed.

Lemma first_in l r : first l = Some r -> In r l.
Proof. destruct l; simpl; [discriminate | intros [= ->]; auto]. Qed.

(** The boolean filter of the code selects exactly the rows of the
    property it decides. *)
Lemma exactly_filter (P : row -> Prop) (p : row -> bool) l :
  (forall r, p r = true <-> P r) -> exactly P l (filter p l).
Proof.
  intros Hp. induction l as [|x l IH]; simpl.
  - constructor.
  - destruct (p x) eqn:E.
    + constructor; [apply Hp, E | exact IH].
    + constructor; [rewrite <- Hp; congruence | exact IH].
Qed.

Lemma exactly_in (P : row -> Prop) l ks :
  exactly P l ks -> forall r, In r ks <-> In r l /\ P r.
Proof.
  induction 1 as [| x l ks Hx _ IH | x l ks Hx _ IH]; intros r; simpl.
  - tauto.
  - rewrite IH. split; [intros [->|[? ?]]; auto | intros [[->|?] ?]; auto].
  - rewrite IH. split; [intros [? ?]; auto | intros [[->|?] ?]; [contradiction | auto]].
Qed.

Lemma exactly_unique (P : row -> Prop) l ks ks' :
  exactly P l ks -> exactly P l ks' -> ks = ks'.
Proof.
  intros H; revert ks'.
  induction H as [| x l ks Hx _ IH | x l ks Hx _ IH]; intros ks' H'; inversion H'; subst;
    try contradiction; auto.
  f_equal; auto.
Qed.
End QueryFacts.

(** ** [complete_task] *)

Lemma lookup_owned_none st uid i :
  first (query_filter [id_is i; user_id_is uid] (tasks st)) = None <-> ~ owns st uid i.
Proof.
  rewrite first_none. split.
  - intros E (r & Hin & Hid & Ho).
    assert (In r (query_filter [id_is i; user_id_is uid] (tasks st))) as Hr.
    { apply in_query_filter. split; [exact Hin|].
      intros c [<-|[<-|[]]]; [apply id_is_true | apply user_id_is_true]; assumption. }
    rewrite E in Hr. exact Hr.
  - intros Hno. destruct (query_filter _ _) as [|r q] eqn:E; [reflexivity|].
    exfalso. apply Hno. exists r.
    assert (In r (query_filter [id_is i; user_id_is uid] (tasks st))) as Hr
      by (rewrite E; left; reflexivity).
    apply in_query_filter in Hr. destruct Hr as [Hin Hc]. split; [exact Hin|].
    split; [apply id_is_true | apply user_id_is_true]; apply Hc; simpl; auto.
Qed.

Lemma lookup_owned_some st uid i r :
  first (query_filter [id_is i; user_id_is uid] (tasks st)) = Some r ->
  In r (tasks st) /\ Task.id r = i /\ owned_by uid r.
Proof.
  intros E. apply first_in, in_query_filter in E. destruct E as [Hin Hc].
  split; [exact Hin|].
  split; [apply id_is_true | apply user_id_is_true]; apply Hc; simpl; auto.
Qed.

Lemma complete_task_missing st uid i :
  ~ owns st uid i -> complete_task st uid i = (st, Err NotFound).
Proof.
  intros H. apply lookup_owned_none in H. unfold complete_task. rewrite H. reflexivity.
Qed.

Lemma complete_task_found st uid i :
  owns st uid i ->
  complete_task st uid i =
    (mkstore (users st) (mark_completed i (tasks st)) (user_id_seq st) (task_id_seq st),
     Ok "Completed").
Proof.
  intros H. unfold complete_task.
  destruct (first _) as [r|] eqn:E.
  - apply lookup_owned_some in E. destruct E as (_ & -> & _). reflexivity.
  - apply lookup_owned_none in E. contradiction.
Qed.

Lemma owns_dec st uid i : owns st uid i \/ ~ owns st uid i.
Proof.
  destruct (first (query_filter [id_is i; user_id_is uid] (tasks st))) as [r|] eqn:E.
  - left. exists r. apply lookup_owned_some, E.
  - right. apply lookup_owned_none, E.
Qed.


Lemma mark_completed_twice i l :
  mark_completed i (mark_completed i l) = mark_completed i l.
Proof.
  unfold mark_completed. rewrite map_map. apply map_ext. intros r.
  destruct (Z.eqb_spec (Task.id r) i) as [E|E]; simpl.
  - rewrite E, Z.eqb_refl. reflexivity.
  - destruct (Z.eqb_spec (Task.id r) i); [contradiction | reflexivity].
Qed.

Lemma mark_completed_in i l r :
  In r l -> Task.id r = i -> In (Task.set_status "Completed" r) (mark_completed i l).
Proof.
  intros Hin Hid. unfold mark_completed.
  apply in_map_iff. exists r. split; [|exact Hin].
  rewrite Hid, Z.eqb_refl. reflexivity.
Qed.

Lemma mark_completed_status i l r :
  In r (mark_completed i l) -> Task.id r = i -> is_completed r.
Proof.
  unfold mark_completed. rewrite in_map_iff. intros (r0 & E & _) Hid.
  destruct (Z.eqb_spec (Task.id r0) i) as [E0|E0]; subst r.
  - reflexivity.
  - contradiction.
Qed.

Lemma ids_mark_completed i l : map Task.id (mark_completed i l) = map Task.id l.
Proof.
  unfold mark_completed. rewrite map_map. apply map_ext. intros r.
  destruct (Task.id r =? i); reflexivity.
Qed.

Lemma owns_mark_completed st uid i j :
  owns st uid i ->
  owns (mkstore (users st) (mark_completed j (tasks st)) (user_id_seq st) (task_id_seq st)) uid i.
Proof.
  intros (r & Hin & Hid & Ho). simpl.
  exists (if Task.id r =? j then Task.set_status "Completed" r else r). split.
  - unfold mark_completed. apply in_map_iff. exists r. auto.
  - destruct (Task.id r =? j); auto.
Qed.


(** C5: completing a task the caller owns twice in a row succeeds both
    times, the second call leaves the store as the first left it, and the
    task is Completed after each. *)
Theorem complete_task_idempotent st uid r :
  In r (tasks st) -> owned_by uid r ->
  let once := complete_task st uid (Task.id r) in
  let twice := complete_task (fst once) uid (Task.id r) in
  snd once = Ok "Completed"
  /\ snd twice = Ok "Completed"
  /\ fst twice = fst once
  /\ In (Task.set_status "Completed" r) (tasks (fst once))
  /\ In (Task.set_status "Completed" r) (tasks (fst twice))
  /\ (forall r', In r' (tasks (fst twice)) -> Task.id r' = Task.id r -> is_completed r').
Proof.
  intros Hin Ho.
  assert (owns st uid (Task.id r)) as H by (exists r; auto).
  cbv zeta. rewrite (complete_task_found H); simpl.
  rewrite (complete_task_found (owns_mark_completed (Task.id r) H)); simpl.
  rewrite mark_completed_twice.
  repeat split; auto using mark_completed_in.
  intros r' Hr' Hid. eapply mark_completed_status; eauto.
Qed.

(** ** The constraints of the store are kept by every request *)

Lemma NoDup_snoc {A : Type} (l : list A) (x : A) :
  NoDup l -> ~ In x l -> NoDup (l ++ [x]).
Proof.
  intros Hl Hx. apply (Permutation_NoDup (Permutation_cons_append l x)).
  constructor; assumption.
Qed.

Lemma fresh_key {A : Type} (key : A -> Z) (l : list A) (n : Z) :
  Forall (fun x => key x < n) l -> ~ In n (map key l).
Proof.
  intros H Hin. apply in_map_iff in Hin. destruct Hin as (x & E & Hx).
  rewrite Forall_forall in H. specialize (H x Hx). lia.
Qed.

Lemma username_taken st n :
  existsb (username_is n) (users st) = true <-> In n (map User.username (users st)).
Proof.
  rewrite existsb_exists, in_map_iff. unfold username_is.
  split; intros (u & H1 & H2); exists u.
  - apply String.eqb_eq in H2. auto.
  - split; [assumption | apply String.eqb_eq; assumption].
Qed.

Lemma user_registered st uid :
  existsb (fun u => User.id u =? uid) (users st) = true <-> In uid (map User.id (users st)).
Proof.
  rewrite existsb_exists, in_map_iff.
  split; intros (u & H1 & H2); exists u.
  - apply Z.eqb_eq in H2. auto.
  - split; [assumption | apply Z.eqb_eq; assumption].
Qed.

Lemma wf_empty : wf empty_store.
Proof. constructor; simpl; constructor. Qed.

Section Invariant.

Variable generate_password_hash : string -> string -> string.
Variable check_password_hash : string -> string -> bool.

Lemma wf_register st u p s : wf st -> wf (fst (register generate_password_hash st u p s)).
Proof.
  intros [H1 H2 H3 H4 H5 H6]. unfold register.
  destruct (existsb _ _) eqn:E; simpl.
  - constructor; simpl; auto.
    eapply Forall_impl; [|exact H4]. simpl; intros; lia.
  - constructor; simpl; rewrite ?map_app; simpl.
    + apply NoDup_snoc; [assumption | eapply fresh_key; eassumption].
    + apply NoDup_snoc; [assumption|].
      rewrite <- username_taken, E. discriminate.
    + assumption.
    + apply Forall_app. split.
      * eapply Forall_impl; [|exact H4]. simpl; intros; lia.
      * repeat constructor; simpl; lia.
    + assumption.
    + eapply Forall_impl; [|exact H6]. simpl; intros r Hr.
      apply in_or_app. left. exact Hr.
Qed.

Lemma wf_create_task st uid t p d : wf st -> wf (fst (create_task st uid t p d)).
Proof.
  intros [H1 H2 H3 H4 H5 H6]. unfold create_task.
  destruct (Strptime.strptime d) as [dd|]; simpl; [|constructor; assumption].
  destruct (existsb _ _) eqn:E; simpl.
  - constructor; simpl; rewrite ?map_app; simpl; auto.
    + apply NoDup_snoc; [assumption | eapply fresh_key; eassumption].
    + apply Forall_app. split.
      * eapply Forall_impl; [|exact H5]. simpl; intros; lia.
      * repeat constructor; simpl; lia.
    + apply Forall_app. split; [assumption|].
      repeat constructor; simpl. apply user_registered, E.
  - constructor; simpl; auto.
    eapply Forall_impl; [|exact H5]. simpl; intros; lia.
Qed.

Lemma wf_complete_task st uid i : wf st -> wf (fst (complete_task st uid i)).
Proof.
  intros Hwf. destruct (owns_dec st uid i) as [Hy|Hn].
  - rewrite (complete_task_found Hy); simpl.
    destruct Hwf as [H1 H2 H3 H4 H5 H6].
    constructor; simpl; auto.
    + rewrite ids_mark_completed. assumption.
    + unfold mark_completed. apply Forall_map.
      eapply Forall_impl; [|exact H5]. intros r Hr.
      destruct (Task.id r =? i); exact Hr.
    + unfold mark_completed. apply Forall_map.
      eapply Forall_impl; [|exact H6]. intros r Hr.
      destruct (Task.id r =? i); exact Hr.
  - rewrite (complete_task_missing Hn). exact Hwf.
Qed.

Lemma reminder_job_store st d : fst (reminder_job st d) = st.
Proof. unfold reminder_job. destruct (0 <? _); reflexivity. Qed.

Lemma login_store st u p : fst (login check_password_hash st u p) = st.
Proof.
  unfold login. destruct (first _) as [x|]; [|reflexivity].
  destruct (check_password_hash _ _); reflexivity.
Qed.

Lemma wf_handle st r :
  wf st -> wf (handle generate_password_hash check_password_hash st r).
Proof.
  intros H. destruct r; simpl; auto using wf_register, wf_create_task, wf_complete_task.
  - rewrite login_store. exact H.
  - rewrite reminder_job_store. exact H.
Qed.

Lemma wf_run rs : forall st,
  wf st -> wf (run generate_password_hash check_password_hash st rs).
Proof.
  induction rs as [|r rs IH]; simpl; intros st H; [exact H|].
  apply IH, wf_handle, H.
Qed.

(** Every store the service can reach from the empty database
    satisfies the constraints. *)
Lemma wf_reachable rs :
  wf (run generate_password_hash check_password_hash empty_store rs).
Proof. apply wf_run, wf_empty. Qed.

End Invariant.

(** ** Frame: what a request leaves alone *)

Lemma same_key_same_row (l : list Task.t) a b :
  NoDup (map Task.id l) -> In a l -> In b l -> Task.id a = Task.id b -> a = b.
Proof.
  induction l as [|x l IH]; simpl; [contradiction|].
  intros Hnd [->|Ha] [->|Hb] E; inversion Hnd; subst; auto.
  - exfalso. rewrite E in *. auto using in_map.
  - exfalso. rewrite <- E in *. auto using in_map.
Qed.

Lemma lookup_task_some st i r :
  lookup_task st i = Some r -> In r (tasks st) /\ Task.id r = i.
Proof.
  unfold lookup_task. intros H. apply find_some in H.
  destruct H as [H1 H2]. apply Z.eqb_eq in H2. auto.
Qed.

Lemma lookup_task_in st r :
  NoDup (map Task.id (tasks st)) -> In r (tasks st) -> lookup_task st (Task.id r) = Some r.
Proof.
  intros Hnd Hin. destruct (lookup_task st (Task.id r)) as [r'|] eqn:E.
  - apply lookup_task_some in E. destruct E as [Hin' E].
    f_equal. eapply same_key_same_row; eauto.
  - unfold lookup_task in E. eapply find_none in E; [|exact Hin].
    rewrite Z.eqb_refl in E. discriminate.
Qed.

Lemma same_but_status_refl r : same_but_status r r.
Proof. repeat split. Qed.

Lemma same_but_status_trans a b c :
  same_but_status a b -> same_but_status b c -> same_but_status a c.
Proof. unfold same_but_status. intuition congruence. Qed.

Lemma same_but_status_set v r : same_but_status r (Task.set_status v r).
Proof. repeat split. Qed.

Section Frame.

Variable generate_password_hash : string -> string -> string.
Variable check_password_hash : string -> string -> bool.

Local Abbreviation handle := (handle generate_password_hash check_password_hash).
Local Abbreviation run := (run generate_password_hash check_password_hash).

(** The task table after a request: the same rows, one more row, or
    the rows with one status set. *)
Lemma tasks_handle st req :
  tasks (handle st req) = tasks st
  \/ (exists uid t p d new, req = CreateTask uid t p d
                            /\ tasks (handle st req) = (tasks st ++ [new])%list)
  \/ (exists uid i, req = CompleteTask uid i /\ owns st uid i
                   /\ tasks (handle st req) = mark_completed i (tasks st)).
Proof.
  destruct req as [u p s|u p|uid t p d|uid|uid i|uid|uid d|d]; simpl; auto.
  - left. unfold register. destruct (existsb _ _); reflexivity.
  - left. rewrite login_store. reflexivity.
  - unfold create_task. destruct (Strptime.strptime d); [|auto].
    destruct (existsb _ _); simpl; [|auto].
    right; left. do 5 eexists. split; reflexivity.
  - destruct (owns_dec st uid i) as [Hy|Hn].
    + right; right. exists uid, i. rewrite (complete_task_found Hy). auto.
    + left. rewrite (complete_task_missing Hn). reflexivity.
  - left. rewrite reminder_job_store. reflexivity.
Qed.

Lemma task_frame_step st req r :
  wf st -> In r (tasks st) ->
  exists r', lookup_task (handle st req) (Task.id r) = Some r'
    /\ same_but_status r r'
    /\ (Task.status r' <> Task.status r ->
        Task.status r' = "Completed"
        /\ req = CompleteTask (Task.user_id r) (Task.id r)).
Proof.
  intros Hwf Hin.
  pose proof (wf_handle generate_password_hash check_password_hash req Hwf) as Hwf'.
  assert (forall r', In r' (tasks (handle st req)) -> Task.id r' = Task.id r ->
                     lookup_task (handle st req) (Task.id r) = Some r') as Hlook.
  { intros r' Hr' E. rewrite <- E. apply lookup_task_in; [apply Hwf' | exact Hr']. }
  destruct (tasks_handle st req)
    as [E | [(uid & t & p & d & new & _ & E) | (uid & i & -> & Ho & E)]].
  - exists r. split; [apply Hlook; [rewrite E; exact Hin | reflexivity]|].
    split; [apply same_but_status_refl | congruence].
  - exists r. split; [apply Hlook; [rewrite E; apply in_or_app; auto | reflexivity]|].
    split; [apply same_but_status_refl | congruence].
  - destruct (Z.eqb_spec (Task.id r) i) as [Ei|Ei].
    + exists (Task.set_status "Completed" r).
      split; [apply Hlook; [rewrite E; apply mark_completed_in; assumption | reflexivity]|].
      split; [apply same_but_status_set|].
      intros _. split; [reflexivity|].
      destruct Ho as (r0 & Hin0 & Hid0 & Ho0).
      assert (r0 = r) as ->
        by (eapply same_key_same_row; [apply Hwf | | | congruence]; assumption).
      unfold owned_by in Ho0. congruence.
    + exists r. split.
      * apply Hlook; [|reflexivity]. rewrite E. unfold mark_completed.
        apply in_map_iff. exists r. split; [|exact Hin].
        destruct (Z.eqb_spec (Task.id r) i); [contradiction | reflexivity].
      * split; [apply same_but_status_refl | congruence].
Qed.

Lemma task_frame_run rs : forall st r,
  wf st -> In r (tasks st) ->
  exists r', lookup_task (run st rs) (Task.id r) = Some r'
    /\ same_but_status r r'
    /\ (Task.status r' <> Task.status r ->
        Task.status r' = "Completed"
        /\ In (CompleteTask (Task.user_id r) (Task.id r)) rs).
Proof.
  induction rs as [|req rs IH]; intros st r Hwf Hin; simpl.
  - exists r. split; [apply lookup_task_in; [apply Hwf | exact Hin]|].
    split; [apply same_but_status_refl | congruence].
  - destruct (task_frame_step req r Hwf Hin) as (r1 & L1 & S1 & C1).
    apply lookup_task_some in L1. destruct L1 as [Hin1 Hid1].
    destruct (IH (handle st req) r1
                 (wf_handle generate_password_hash check_password_hash req Hwf) Hin1)
      as (r' & L & S & C).
    exists r'. split; [rewrite <- Hid1; exact L|].
    split; [eapply same_but_status_trans; eassumption|].
    intros Hne.
    destruct (string_dec (Task.status r') (Task.status r1)) as [E|E].
    + destruct C1 as [C1a C1b]; [congruence|].
      split; [congruence | left; auto].
    + destruct (C E) as [Ca Cb]. split; [exact Ca|]. right.
      destruct S1 as (Sa & _ & _ & _ & Sb). rewrite <- Sa, <- Sb. exact Cb.
Qed.

(** C9: along any sequence of requests a task keeps its id, title,
    priority, due date and owner; its status changes only to Completed
    and only if the sequence contains the owner's [complete_task] of
    that id; and one [complete_task] keeps the user table and every
    row but the one with the id it was given. *)
Theorem task_fields_immutable st rs r :
  wf st -> In r (tasks st) ->
  (exists r', lookup_task (run st rs) (Task.id r) = Some r'
     /\ same_but_status r r'
     /\ (Task.status r' <> Task.status r ->
         Task.status r' = "Completed"
         /\ In (CompleteTask (Task.user_id r) (Task.id r)) rs))
  /\ (forall uid i,
       users (handle st (CompleteTask uid i)) = users st
       /\ List.length (tasks (handle st (CompleteTask uid i))) = List.length (tasks st)
       /\ (Task.id r <> i -> lookup_task (handle st (CompleteTask uid i)) (Task.id r) = Some r)
       /\ (Task.id r = i -> uid <> Task.user_id r ->
           lookup_task (handle st (CompleteTask uid i)) (Task.id r) = Some r)).
Proof.
  intros Hwf Hin. split; [apply task_frame_run; assumption|].
  intros uid i.
  destruct (task_frame_step (CompleteTask uid i) r Hwf Hin) as (r' & L & S & C).
  assert (users (handle st (CompleteTask uid i)) = users st
          /\ List.length (tasks (handle st (CompleteTask uid i))) = List.length (tasks st)) as [Hu Hl].
  { simpl. destruct (owns_dec st uid i) as [Hy|Hn].
    - rewrite (complete_task_found Hy); simpl. unfold mark_completed.
      rewrite length_map. auto.
    - rewrite (complete_task_missing Hn). auto. }
  assert (Task.status r' = Task.status r -> r' = r) as Hsame.
  { destruct S as (S1 & S2 & S3 & S4 & S5). destruct r, r'; simpl in *. congruence. }
  repeat split; try assumption.
  - intros Hne. rewrite L. f_equal. apply Hsame.
    destruct (string_dec (Task.status r') (Task.status r)) as [E|E]; [exact E|].
    destruct (C E) as [_ [= _ E2]]. congruence.
  - intros _ Hne. rewrite L. f_equal. apply Hsame.
    destruct (string_dec (Task.status r') (Task.status r)) as [E|E]; [exact E|].
    destruct (C E) as [_ [= E1 _]]. congruence.
Qed.

End Frame.

(** ** Isolation between users *)

Lemma filter_andb {A : Type} (p q : A -> bool) (l : list A) :
  filter (fun x => p x && q x) l = filter q (filter p l).
Proof.
  induction l as [|x l IH]; simpl; [reflexivity|].
  destruct (p x); simpl; rewrite IH; reflexivity.
Qed.

Lemma query_filter_cons {row : Type} (c : @criterion row) cs l :
  query_filter (c :: cs) l = query_filter cs (filter c l).
Proof. unfold query_filter. simpl. apply filter_andb. Qed.

Lemma query_filter_own uid cs st :
  query_filter (user_id_is uid :: cs) (tasks st) = query_filter cs (own_tasks uid st).
Proof. apply query_filter_cons. Qed.

Lemma query_filter_nil {row : Type} (l : list row) : query_filter [] l = l.
Proof.
  unfold query_filter. simpl.
  induction l as [|r l IH]; simpl; [reflexivity | rewrite IH; reflexivity].
Qed.

Lemma in_own_tasks uid st r : In r (own_tasks uid st) <-> In r (tasks st) /\ owned_by uid r.
Proof. unfold own_tasks. rewrite filter_In, Z.eqb_eq. reflexivity. Qed.

(** What a user is shown is a function of that user's own rows. *)
Lemma responses_from_own_tasks uid st st' :
  own_tasks uid st' = own_tasks uid st ->
  snd (list_tasks st' uid) = snd (list_tasks st uid)
  /\ snd (stats st' uid) = snd (stats st uid)
  /\ forall today, snd (reminders st' uid today) = snd (reminders st uid today).
Proof.
  intros E. split; [|split; [|intros today]];
    unfold list_tasks, stats, reminders; simpl;
    rewrite !query_filter_own, E; reflexivity.
Qed.

Lemma own_tasks_forget uid i st :
  (forall r, In r (tasks st) -> Task.id r = i -> ~ owned_by uid r) ->
  own_tasks uid (forget i st) = own_tasks uid st.
Proof.
  unfold own_tasks, forget, owned_by; simpl. intros H.
  induction (tasks st) as [|r l IH]; simpl; [reflexivity|].
  destruct (Z.eqb_spec (Task.id r) i) as [Ei|Ei]; simpl.
  - destruct (Z.eqb_spec (Task.user_id r) uid) as [Eu|Eu].
    + exfalso. apply (H r); simpl; auto.
    + apply IH. intros r' Hr'. apply H. simpl; auto.
  - rewrite IH; [reflexivity|]. intros r' Hr'. apply H. simpl; auto.
Qed.

(** C1: a task of user A is not among the rows B's [list_tasks] returns;
    B's [list_tasks], [stats] and [reminders] answer the same in every
    store that holds the same tasks of B, in particular in the store
    without A's task; and B's [complete_task] on the id of A's task
    answers NotFound and returns the store it was given. *)
Theorem user_isolation st A B r :
  wf st -> A <> B -> In r (tasks st) -> owned_by A r ->
  (exists rows, snd (list_tasks st B) = Ok rows
                /\ forall j, In j rows -> j_id j <> Task.id r)
  /\ ~ In r (own_tasks B st)
  /\ (forall st', own_tasks B st' = own_tasks B st ->
        snd (list_tasks st' B) = snd (list_tasks st B)
        /\ snd (stats st' B) = snd (stats st B)
        /\ forall today, snd (reminders st' B today) = snd (reminders st B today))
  /\ own_tasks B (forget (Task.id r) st) = own_tasks B st
  /\ complete_task st B (Task.id r) = (st, Err NotFound)
  /\ lookup_task (fst (complete_task st B (Task.id r))) (Task.id r) = Some r.
Proof.
  intros Hwf Hne Hin Ho. unfold owned_by in Ho.
  assert (forall r', In r' (tasks st) -> Task.id r' = Task.id r -> ~ owned_by B r') as Hnot.
  { intros r' Hr' E Hb.
    assert (r' = r) as -> by (eapply same_key_same_row; [apply Hwf| | |]; eassumption).
    unfold owned_by in Hb. congruence. }
  assert (~ owns st B (Task.id r)) as Hno.
  { intros (r' & Hr' & E & Hb). exact (Hnot r' Hr' E Hb). }
  split; [|split; [|split; [|split; [|split]]]].
  - eexists. split; [reflexivity|].
    intros j Hj E. unfold all in Hj. rewrite query_filter_own, query_filter_nil in Hj.
    apply in_map_iff in Hj. destruct Hj as (r' & <- & Hr').
    apply in_own_tasks in Hr'. destruct Hr' as [Hr' Hb].
    exact (Hnot r' Hr' E Hb).
  - rewrite in_own_tasks. intros [_ Hb]. exact (Hnot r Hin eq_refl Hb).
  - intros st'. apply responses_from_own_tasks.
  - apply own_tasks_forget, Hnot.
  - apply complete_task_missing, Hno.
  - rewrite (complete_task_missing Hno). simpl.
    apply lookup_task_in; [apply Hwf | exact Hin].
Qed.

(** ** [stats] *)

Lemma count_split {A : Type} (p : A -> bool) (l : list A) :
  count (filter p l) + count (filter (fun x => negb (p x)) l) = count l.
Proof.
  unfold count. induction l as [|x l IH]; simpl; [reflexivity|].
  destruct (p x); simpl List.length; lia.
Qed.

Lemma count_nonneg {A : Type} (l : list A) : 0 <= count l.
Proof. unfold count. lia. Qed.

Lemma count_exactly {A : Type} (P : A -> Prop) (p : A -> bool) (l ks : list A) :
  (forall x, p x = true <-> P x) -> exactly P l ks -> count (filter p l) = count ks.
Proof.
  intros Hp H. f_equal. eapply exactly_unique; [apply exactly_filter, Hp | exact H].
Qed.

Lemma query_filter_one {row : Type} (c : @criterion row) l : query_filter [c] l = filter c l.
Proof. rewrite query_filter_cons. apply query_filter_nil. Qed.

Lemma count_three_levels (l : list Task.t) :
  Forall known_priority l ->
  count (filter (priority_is "Low") l) + count (filter (priority_is "Medium") l)
  + count (filter (priority_is "High") l) = count l.
Proof.
  unfold count, known_priority, has_priority, priority_is.
  induction 1 as [|r l Hr _ IH]; simpl; [reflexivity|].
  destruct Hr as [E|[E|E]]; rewrite E;
    cbn -[Z.add Z.of_nat List.length]; simpl List.length; lia.
Qed.

(** C6: [stats] returns the number of the user's Completed tasks, the
    rest of the user's tasks as pending (total minus completed, so the
    two add up to the total), and for each level the number of the
    user's tasks with that priority, whatever their status; the three
    levels add up to the total when each task of the user has one of
    them. *)
Theorem stats_counts st uid :
  exists s, stats st uid = (st, Ok s)
  /\ pending s = count (own_tasks uid st) - completed s
  /\ pending s + completed s = count (own_tasks uid st)
  /\ (forall ks, exactly is_completed (own_tasks uid st) ks -> completed s = count ks)
  /\ (forall ks, exactly (fun r => ~ is_completed r) (own_tasks uid st) ks -> pending s = count ks)
  /\ (forall ks, exactly (has_priority "Low") (own_tasks uid st) ks -> Low s = count ks)
  /\ (forall ks, exactly (has_priority "Medium") (own_tasks uid st) ks -> Medium s = count ks)
  /\ (forall ks, exactly (has_priority "High") (own_tasks uid st) ks -> High s = count ks)
  /\ (Forall known_priority (own_tasks uid st) ->
      Low s + Medium s + High s = count (own_tasks uid st)).
Proof.
  unfold stats. eexists. split; [reflexivity|]. simpl.
  rewrite !query_filter_own, !query_filter_one, query_filter_nil.
  pose proof (count_split (status_is "Completed") (own_tasks uid st)) as Hsplit.
  repeat split.
  - lia.
  - intros ks H. eapply count_exactly; [|exact H]. intros r. apply status_is_true.
  - intros ks H.
    replace (count (own_tasks uid st) - count (filter (status_is "Completed") (own_tasks uid st)))
      with (count (filter (fun r => negb (status_is "Completed" r)) (own_tasks uid st))) by lia.
    eapply count_exactly; [|exact H]. intros r. apply (status_is_not_true "Completed" r).
  - intros ks H. eapply count_exactly; [|exact H]. intros r. apply priority_is_true.
  - intros ks H. eapply count_exactly; [|exact H]. intros r. apply priority_is_true.
  - intros ks H. eapply count_exactly; [|exact H]. intros r. apply priority_is_true.
  - apply count_three_levels.
Qed.

(** Completing a task moves it from pending to completed and leaves the
    priority counts as they were. *)
Lemma stats_priority_after_complete st uid i caller :
  exists s s', stats st uid = (st, Ok s)
    /\ snd (stats (fst (complete_task st caller i)) uid) = Ok s'
    /\ Low s' = Low s /\ Medium s' = Medium s /\ High s' = High s
    /\ pending s' + completed s' = pending s + completed s.
Proof.
  assert (forall (p : Task.t -> bool) l,
            (forall r, p (Task.set_status "Completed" r) = p r) ->
            count (filter p (mark_completed i l)) = count (filter p l)) as Hkeep.
  { intros p l Hp. unfold count, mark_completed. f_equal.
    induction l as [|r l IH]; simpl; [reflexivity|].
    destruct (Task.id r =? i); rewrite ?Hp; destruct (p r); simpl; lia. }
  assert (forall cs, (forall c r, In c cs -> c (Task.set_status "Completed" r) = c r) ->
            count (query_filter cs (mark_completed i (tasks st)))
            = count (query_filter cs (tasks st))) as Hq.
  { intros cs Hcs. unfold query_filter. apply Hkeep. intros r.
    induction cs as [|c cs IH]; simpl; [reflexivity|].
    rewrite Hcs by (left; reflexivity). f_equal. apply IH.
    intros c' r' Hc'. apply Hcs. right. exact Hc'. }
  destruct (owns_dec st caller i) as [Hy|Hn].
  - rewrite (complete_task_found Hy). do 2 eexists.
    split; [reflexivity|]. split; [reflexivity|]. simpl.
    repeat split;
      try (apply Hq; intros c r [<-|[<-|[]]]; reflexivity).
    rewrite (Hq [user_id_is uid]) by (intros c r [<-|[]]; reflexivity). lia.
  - rewrite (complete_task_missing Hn). do 2 eexists.
    split; [reflexivity|]. split; [reflexivity|]. simpl.
    repeat split.
Qed.

(** ** [reminders] and the scheduled job *)

Lemma query_filter_exactly {row : Type} (cs : list (@criterion row)) (P : row -> Prop) l :
  (forall r, (forall c, In c cs -> c r = true) <-> P r) ->
  exactly P l (query_filter cs l).
Proof.
  intros H. apply exactly_filter. intros r. rewrite forallb_forall. apply H.
Qed.

Lemma overdue_for_criteria uid today r :
  (forall c, In c [user_id_is uid; status_is_not "Completed"; due_before today] -> c r = true)
  <-> overdue_for uid today r.
Proof.
  unfold overdue_for, is_completed.
  rewrite <- user_id_is_true, <- (status_is_not_true "Completed"), <- due_before_true.
  simpl. split.
  - intros H. repeat split; apply H; auto.
  - intros (H1 & H2 & H3) c [<-|[<-|[<-|[]]]]; assumption.
Qed.

Lemma due_today_for_criteria uid today r :
  (forall c, In c [user_id_is uid; status_is_not "Completed"; due_on today] -> c r = true)
  <-> due_today_for uid today r.
Proof.
  unfold due_today_for, is_completed.
  rewrite <- user_id_is_true, <- (status_is_not_true "Completed"), <- due_on_true.
  simpl. split.
  - intros H. repeat split; apply H; auto.
  - intros (H1 & H2 & H3) c [<-|[<-|[<-|[]]]]; assumption.
Qed.


(** C7: [reminders] lists as overdue the titles of exactly the caller's
    tasks that are not Completed and due strictly before [today], and as
    today's the titles of exactly the caller's tasks that are not
    Completed and due on [today]; no Completed task contributes to
    either list, and no task contributes to both. *)
Theorem reminders_exact st uid today :
  exists late due,
    reminders st uid today
    = (st, Ok (mk_reminders_json (map Task.title late) (map Task.title due)))
    /\ exactly (overdue_for uid today) (tasks st) late
    /\ exactly (due_today_for uid today) (tasks st) due
    /\ (forall r, is_completed r -> ~ In r late /\ ~ In r due)
    /\ (forall r, ~ (In r late /\ In r due)).
Proof.
  exists (query_filter [user_id_is uid; status_is_not "Completed"; due_before today] (tasks st)),
         (query_filter [user_id_is uid; status_is_not "Completed"; due_on today] (tasks st)).
  pose proof (@query_filter_exactly _ _ _ (tasks st) (overdue_for_criteria uid today)) as Hl.
  pose proof (@query_filter_exactly _ _ _ (tasks st) (due_today_for_criteria uid today)) as Hd.
  split; [reflexivity|]. split; [exact Hl|]. split; [exact Hd|]. split.
  - intros r Hc. rewrite (exactly_in Hl), (exactly_in Hd).
    unfold overdue_for, due_today_for. tauto.
  - intros r. rewrite (exactly_in Hl), (exactly_in Hd).
    unfold overdue_for, due_today_for. intros [(_ & _ & _ & H1) (_ & _ & _ & H2)].
    rewrite H2 in H1. exact (date_lt_irrefl H1).
Qed.

(** The job counts what [reminders] lists as overdue, without the
    restriction to one owner. *)
Lemma overdue_for_anyone uid today r :
  overdue_for uid today r <-> owned_by uid r /\ overdue_anyone today r.
Proof. unfold overdue_for, overdue_anyone. tauto. Qed.


(** ** Parsing the due date *)

Local Open Scope nat_scope.

Lemma nat_of_digit n : nat_of_ascii (Date.digit n) = 48 + n mod 10.
Proof.
  unfold Date.digit. apply nat_ascii_embedding.
  pose proof (Nat.mod_upper_bound n 10). lia.
Qed.

Lemma is_digit_digit n : Strptime.is_digit (Date.digit n) = true.
Proof.
  unfold Strptime.is_digit. rewrite nat_of_digit.
  pose proof (Nat.mod_upper_bound n 10).
  apply andb_true_iff. split; apply Nat.leb_le; lia.
Qed.

Lemma digit_val_digit n : Strptime.digit_val (Date.digit n) = n mod 10.
Proof. unfold Strptime.digit_val. rewrite nat_of_digit. lia. Qed.

Lemma four_digits y :
  y <= Date.max_year ->
  1000 * ((y / 1000) mod 10) + 100 * ((y / 100) mod 10) + 10 * ((y / 10) mod 10) + y mod 10 = y.
Proof.
  unfold Date.max_year. intros H.
  replace (y / 1000) with (y / 10 / 10 / 10) by (rewrite !Nat.Div0.div_div; reflexivity).
  replace (y / 100) with (y / 10 / 10) by (rewrite !Nat.Div0.div_div; reflexivity).
  pose proof (Nat.div_mod_eq y 10). pose proof (Nat.div_mod_eq (y/10) 10).
  pose proof (Nat.div_mod_eq (y/10/10) 10). pose proof (Nat.div_mod_eq (y/10/10/10) 10).
  pose proof (Nat.mod_upper_bound y 10). pose proof (Nat.mod_upper_bound (y/10) 10).
  pose proof (Nat.mod_upper_bound (y/10/10) 10). pose proof (Nat.mod_upper_bound (y/10/10/10) 10).
  lia.
Qed.

Lemma group_Y_pad4 y rest :
  y <= Date.max_year -> Strptime.group_Y (Date.pad4 y ++ rest) = [(y, rest)].
Proof.
  intros H. unfold Date.pad4, Date.pad2. cbn [append Strptime.group_Y].
  rewrite !is_digit_digit, !digit_val_digit. cbn [andb].
  rewrite four_digits by exact H. reflexivity.
Qed.

Lemma group_m_pad2 m rest :
  1 <= m <= 12 -> exists tl, Strptime.group_m (Date.pad2 m ++ rest) = (m, rest) :: tl.
Proof.
  intros H.
  do 13 (destruct m as [|m]; [try lia; eexists; reflexivity|]). lia.
Qed.

Lemma group_d_pad2 d :
  1 <= d <= 31 -> exists tl, Strptime.group_d (Date.pad2 d) = (d, "") :: tl.
Proof.
  intros H.
  do 32 (destruct d as [|d]; [try lia; eexists; reflexivity|]). lia.
Qed.

Lemma strptime_isoformat y m d :
  Date.valid y m d = true ->
  Strptime.strptime (Date.isoformat (Date.mkdate y m d)) = Some (Date.mkdate y m d).
Proof.
  intros Hv. pose proof Hv as Hv'. unfold Date.valid in Hv'.
  rewrite !andb_true_iff, !Nat.leb_le in Hv'.
  destruct Hv' as [[[[[Hy1 Hy2] Hm1] Hm2] Hd1] Hd2].
  assert (d <= 31) as Hd3.
  { revert Hd2. unfold Date.days_in_month.
    do 13 (destruct m as [|m]; [try destruct (Date.is_leap y); lia|]). lia. }
  unfold Strptime.strptime, Strptime.format_regex, Date.isoformat. simpl Date.year. simpl Date.month. simpl Date.day.
  rewrite group_Y_pad4 by exact Hy2.
  destruct (@group_m_pad2 m (String "-" (Date.pad2 d)) (conj Hm1 Hm2)) as [tlm Em].
  destruct (@group_d_pad2 d (conj Hd1 Hd3)) as [tld Ed].
  cbn [flat_map append Strptime.literal Ascii.eqb Bool.eqb app].
  rewrite Em. cbn [flat_map append Strptime.literal Ascii.eqb Bool.eqb app].
  rewrite Ed. cbn [map app].
  unfold Date.make. rewrite Hv. reflexivity.
Qed.

Lemma strptime_valid s d :
  Strptime.strptime s = Some d ->
  Date.valid (Date.year d) (Date.month d) (Date.day d) = true.
Proof.
  unfold Strptime.strptime.
  destruct (Strptime.format_regex s) as [|[[[y m] dd] rest] tl]; [discriminate|].
  destruct rest; [|discriminate].
  unfold Date.make. destruct (Date.valid y m dd) eqn:E; [|discriminate].
  intros [= <-]. exact E.
Qed.

Lemma digit_of_val a :
  Strptime.is_digit a = true -> a = Date.digit (Strptime.digit_val a) /\ Strptime.digit_val a < 10.
Proof.
  unfold Strptime.is_digit, Strptime.digit_val, Date.digit.
  rewrite andb_true_iff, !Nat.leb_le. intros [H1 H2].
  assert (nat_of_ascii a - 48 < 10) as Hlt by lia. split; [|exact Hlt].
  rewrite Nat.mod_small by exact Hlt.
  replace (48 + (nat_of_ascii a - 48)) with (nat_of_ascii a) by lia.
  symmetry. apply ascii_nat_embedding.
Qed.

Lemma in_range_inv lo hi a :
  Strptime.in_range lo hi a = true ->
  a = Date.digit (Strptime.digit_val a) /\ lo <= Strptime.digit_val a <= hi
  /\ Strptime.digit_val a < 10.
Proof.
  unfold Strptime.in_range. rewrite !andb_true_iff, !Nat.leb_le.
  intros [Hd [H1 H2]]. destruct (digit_of_val a Hd). auto.
Qed.

Lemma digit_mod n : Date.digit (n mod 10) = Date.digit n.
Proof. unfold Date.digit. rewrite Nat.Div0.mod_mod. reflexivity. Qed.

Lemma pad2_digits a b : a < 10 -> b < 10 ->
  Date.pad2 (10 * a + b) = String (Date.digit a) (String (Date.digit b) "").
Proof.
  intros Ha Hb. unfold Date.pad2.
  assert ((10 * a + b) / 10 = a) as -> by (symmetry; apply Nat.div_unique with b; lia).
  assert (Date.digit (10 * a + b) = Date.digit b) as ->; [|reflexivity].
  rewrite <- digit_mod. f_equal. symmetry. apply Nat.mod_unique with a; lia.
Qed.

Lemma two_inv p q s v r :
  In (v, r) (Strptime.two p q s) ->
  exists a b, s = String a (String b r) /\ p a = true /\ q b = true
              /\ v = 10 * Strptime.digit_val a + Strptime.digit_val b.
Proof.
  unfold Strptime.two. destruct s as [|a [|b s]]; try contradiction.
  destruct (p a) eqn:Ea; [|contradiction]. destruct (q b) eqn:Eb; [|contradiction].
  simpl. intros [[= <- <-]|[]]. exists a, b. auto.
Qed.

Lemma one_inv s v r :
  In (v, r) (Strptime.one s) ->
  exists a, s = String a r /\ Strptime.in_range 1 9 a = true /\ v = Strptime.digit_val a.
Proof.
  unfold Strptime.one. destruct s as [|a s]; [contradiction|].
  destruct (Strptime.in_range 1 9 a) eqn:E; [|contradiction].
  intros [[= <- <-]|[]]. exists a. auto.
Qed.

Lemma two_text p q s v r lo hi lo' hi' :
  (forall a, p a = true -> Strptime.in_range lo hi a = true) ->
  (forall a, q a = true -> Strptime.in_range lo' hi' a = true) ->
  In (v, r) (Strptime.two p q s) ->
  s = Date.pad2 v ++ r /\ 10 * lo + lo' <= v <= 10 * hi + hi'.
Proof.
  intros Hp Hq H. apply two_inv in H. destruct H as (a & b & -> & Ha & Hb & ->).
  apply Hp, in_range_inv in Ha. apply Hq, in_range_inv in Hb.
  destruct Ha as (Ea & Ha & Ha'), Hb as (Eb & Hb & Hb').
  rewrite pad2_digits by assumption. rewrite <- Ea, <- Eb. simpl. split; [reflexivity | lia].
Qed.

Lemma is_digit_in_range a : Strptime.is_digit a = true -> Strptime.in_range 0 9 a = true.
Proof.
  intros H. unfold Strptime.in_range. rewrite H. destruct (digit_of_val a H) as [_ Hlt].
  simpl. apply Nat.leb_le. lia.
Qed.

Lemma one_text s v r :
  In (v, r) (Strptime.one s) -> s = String (Date.digit v) r /\ 1 <= v <= 9.
Proof.
  intros H. apply one_inv in H. destruct H as (a & -> & Ha & ->).
  apply in_range_inv in Ha. destruct Ha as (Ea & Ha & _). rewrite <- Ea. auto.
Qed.

Lemma group_m_inv s m r :
  In (m, r) (Strptime.group_m s) ->
  exists mt, month_text m mt /\ s = mt ++ r /\ 1 <= m <= 12.
Proof.
  unfold Strptime.group_m. rewrite !in_app_iff. intros [H|[H|H]].
  - apply (@two_text _ _ _ _ _ 1 1 0 2) in H; auto. destruct H as [-> H].
    exists (Date.pad2 m). split; [left; reflexivity|]. split; [reflexivity | lia].
  - apply (@two_text _ _ _ _ _ 0 0 1 9) in H; auto. destruct H as [-> H].
    exists (Date.pad2 m). split; [left; reflexivity|]. split; [reflexivity | lia].
  - apply one_text in H. destruct H as [-> H].
    exists (String (Date.digit m) ""). split; [right; split; [lia | reflexivity]|].
    split; [reflexivity | lia].
Qed.

Lemma group_d_inv s d :
  In (d, "") (Strptime.group_d s) -> day_text d s /\ 1 <= d <= 31.
Proof.
  unfold Strptime.group_d. rewrite !in_app_iff. intros [H|[H|[H|[H|H]]]].
  - apply (@two_text _ _ _ _ _ 3 3 0 1) in H; auto. destruct H as [-> H].
    split; [left; reflexivity | lia].
  - apply (@two_text _ _ _ _ _ 1 2 0 9) in H; auto using is_digit_in_range.
    destruct H as [-> H]. split; [left; reflexivity | lia].
  - apply (@two_text _ _ _ _ _ 0 0 1 9) in H; auto. destruct H as [-> H].
    split; [left; reflexivity | lia].
  - apply one_text in H. destruct H as [-> H]. split; [right; split; [lia | auto] | lia].
  - unfold Strptime.space_one in H. destruct s as [|a s]; [contradiction|].
    destruct (Ascii.eqb_spec a " ") as [->|]; [|contradiction].
    apply one_text in H. destruct H as [-> H]. split; [right; split; [lia | auto] | lia].
Qed.

Lemma group_Y_inv s y r :
  In (y, r) (Strptime.group_Y s) -> s = Date.pad4 y ++ r /\ y <= Date.max_year.
Proof.
  unfold Strptime.group_Y. destruct s as [|a [|b [|c [|d s]]]]; try contradiction.
  destruct (Strptime.is_digit a) eqn:Ea; [|contradiction].
  destruct (Strptime.is_digit b) eqn:Eb; [|contradiction].
  destruct (Strptime.is_digit c) eqn:Ec; [|contradiction].
  destruct (Strptime.is_digit d) eqn:Ed; [|contradiction].
  cbn [andb In]. intros [E|[]]. apply pair_equal_spec in E. destruct E as [<- <-].
  destruct (digit_of_val a Ea) as [Ha Ha'], (digit_of_val b Eb) as [Hb Hb'],
           (digit_of_val c Ec) as [Hc Hc'], (digit_of_val d Ed) as [Hd Hd'].
  set (a' := Strptime.digit_val a) in *. set (b' := Strptime.digit_val b) in *.
  set (c' := Strptime.digit_val c) in *. set (d' := Strptime.digit_val d) in *.
  set (y := 1000 * a' + 100 * b' + 10 * c' + d').
  assert (y / 1000 = a') as E1 by (symmetry; apply Nat.div_unique with (100 * b' + 10 * c' + d'); lia).
  assert (y / 100 = 10 * a' + b') as E2 by (symmetry; apply Nat.div_unique with (10 * c' + d'); lia).
  assert (y / 10 = 10 * (10 * a' + b') + c') as E3 by (symmetry; apply Nat.div_unique with d'; lia).
  assert (forall q r, r < 10 -> Date.digit (10 * q + r) = Date.digit r) as Hdig.
  { intros q r Hr. rewrite <- digit_mod. f_equal. symmetry. apply Nat.mod_unique with q; lia. }
  split; [|unfold Date.max_year; lia].
  unfold Date.pad4, Date.pad2. rewrite E1, E2, E3.
  replace y with (10 * (100 * a' + 10 * b' + c') + d') by (unfold y; lia).
  rewrite !Hdig by assumption. rewrite <- Ha, <- Hb, <- Hc, <- Hd. reflexivity.
Qed.

Lemma literal_inv c s r : In r (Strptime.literal c s) -> s = String c r.
Proof.
  unfold Strptime.literal. destruct s as [|a s]; [contradiction|].
  destruct (Ascii.eqb_spec a c) as [->|]; [|contradiction].
  intros [->|[]]. reflexivity.
Qed.

Lemma append_assoc (a b c : string) : (a ++ b) ++ c = a ++ b ++ c.
Proof. induction a as [|x a IH]; simpl; [reflexivity | rewrite IH; reflexivity]. Qed.

Lemma format_regex_inv s y m d :
  In (y, m, d, "") (Strptime.format_regex s) ->
  date_text (Date.mkdate y m d) s /\ y <= Date.max_year /\ 1 <= m <= 12 /\ 1 <= d <= 31.
Proof.
  unfold Strptime.format_regex. rewrite in_flat_map.
  intros ([y' s1] & HY & H). rewrite in_flat_map in H.
  destruct H as (s2 & HL1 & H). rewrite in_flat_map in H.
  destruct H as ([m' s3] & HM & H). rewrite in_flat_map in H.
  destruct H as (s4 & HL2 & H). rewrite in_map_iff in H.
  destruct H as ([d' s5] & E & HD).
  apply pair_equal_spec in E. destruct E as [E ->].
  apply pair_equal_spec in E. destruct E as [E ->].
  apply pair_equal_spec in E. destruct E as [-> ->].
  apply group_Y_inv in HY. destruct HY as [-> Hy].
  apply literal_inv in HL1. subst s1.
  apply group_m_inv in HM. destruct HM as (mt & Hmt & -> & Hm).
  apply literal_inv in HL2. subst s3.
  apply group_d_inv in HD. destruct HD as [Hdt Hd].
  split; [|auto]. exists mt, s4. simpl. split; [exact Hmt|]. split; [exact Hdt|].
  reflexivity.
Qed.

Lemma group_m_text m mt rest :
  1 <= m <= 12 -> month_text m mt ->
  exists tl, Strptime.group_m (mt ++ String "-" rest) = (m, String "-" rest) :: tl.
Proof.
  intros H [->|[Hm ->]].
  - do 13 (destruct m as [|m]; [try lia; eexists; reflexivity|]). lia.
  - do 10 (destruct m as [|m]; [try lia; eexists; reflexivity|]). lia.
Qed.

Lemma group_d_text d dt :
  1 <= d <= 31 -> day_text d dt -> exists tl, Strptime.group_d dt = (d, "") :: tl.
Proof.
  intros H [->|[Hd [->| ->]]].
  - do 32 (destruct d as [|d]; [try lia; eexists; reflexivity|]). lia.
  - do 10 (destruct d as [|d]; [try lia; eexists; reflexivity|]). lia.
  - do 10 (destruct d as [|d]; [try lia; eexists; reflexivity|]). lia.
Qed.

Lemma valid_bounds y m d :
  Date.valid y m d = true ->
  1 <= y <= Date.max_year /\ 1 <= m <= 12 /\ 1 <= d <= 31.
Proof.
  unfold Date.valid. rewrite !andb_true_iff, !Nat.leb_le.
  intros [[[[[Hy1 Hy2] Hm1] Hm2] Hd1] Hd2].
  assert (Date.days_in_month y m <= 31).
  { unfold Date.days_in_month.
    do 13 (destruct m as [|m]; [try destruct (Date.is_leap y); lia|]). lia. }
  lia.
Qed.

Lemma strptime_text y m d s :
  Date.valid y m d = true -> date_text (Date.mkdate y m d) s ->
  Strptime.strptime s = Some (Date.mkdate y m d).
Proof.
  intros Hv (mt & dt & Hmt & Hdt & ->). cbn [Date.year Date.month Date.day] in *.
  destruct (valid_bounds _ _ _ Hv) as (Hy & Hm & Hd).
  destruct (group_m_text dt Hm Hmt) as [tlm Em].
  destruct (group_d_text Hd Hdt) as [tld Ed].
  unfold Strptime.strptime, Strptime.format_regex.
  rewrite group_Y_pad4 by apply Hy.
  cbn [flat_map append Strptime.literal Ascii.eqb Bool.eqb app].
  rewrite Em. cbn [flat_map append Strptime.literal Ascii.eqb Bool.eqb app].
  rewrite Ed. cbn [map app].
  unfold Date.make. rewrite Hv. reflexivity.
Qed.

Lemma strptime_accepts s d :
  Strptime.strptime s = Some d
  <-> calendar_date d /\ date_text d s.
Proof.
  split.
  - unfold Strptime.strptime.
    destruct (Strptime.format_regex s) as [|[[[y m] dd] rest] tl] eqn:E; [discriminate|].
    destruct rest; [|discriminate].
    unfold Date.make. destruct (Date.valid y m dd) eqn:Hv; [|discriminate].
    intros [= <-]. split; [exact Hv|].
    apply format_regex_inv. rewrite E. left. reflexivity.
  - destruct d as [y m dd]. intros [Hv Ht]. apply strptime_text; assumption.
Qed.

Local Open Scope Z_scope.

(** The parser is more liberal than the zero-padded form: month and day
    may be written without the leading zero. *)
Example strptime_unpadded :
  Strptime.strptime "2024-1-5" = Some (Date.mkdate 2024 1 5)
  /\ Strptime.strptime "2024-01-05" = Some (Date.mkdate 2024 1 5)
  /\ Strptime.strptime "2024-02-30" = None
  /\ Strptime.strptime "01/05/2024" = None.
Proof. repeat split. Qed.

(** ** [register] and [create_task] *)

Section Accounts.

Variable generate_password_hash : string -> string -> string.
Variable check_password_hash : string -> string -> bool.

Local Abbreviation handle := (handle generate_password_hash check_password_hash).
Local Abbreviation run := (run generate_password_hash check_password_hash).





End Accounts.







(** The priority of the request plays no part in the outcome. *)
Lemma create_task_any_priority st uid title p p' due :
  snd (create_task st uid title p due) = snd (create_task st uid title p' due).
Proof.
  unfold create_task. destruct (Strptime.strptime due); [|reflexivity].
  destruct (existsb _ _); reflexivity.
Qed.


(** ** The line the job prints *)

Lemma str_reads_back n :
  option_map Z.of_int (NilZero.int_of_string (str n)) = Some n.
Proof.
  unfold str. rewrite NilZero.isi.
  - simpl. rewrite DecimalZ.of_to. reflexivity.
  - destruct n; simpl; try discriminate.
    intros [= E]. exact (DecimalPos.Unsigned.to_uint_nonnil _ E).
  - destruct n; simpl; try discriminate.
    intros [= E]. exact (DecimalPos.Unsigned.to_uint_nonnil _ E).
Qed.

Lemma str_injective n m : str n = str m -> n = m.
Proof.
  intros E. pose proof (str_reads_back n) as Hn. rewrite E, str_reads_back in Hn.
  congruence.
Qed.

(** ** The examples of the specification, run on the model *)

Example demo_store_tasks :
  map to_json (tasks demo_store)
  = [mk_task_json 1 "Pay rent" "Pending" "High" "2024-01-01";
     mk_task_json 2 "Walk dog" "Pending" "Low" "2024-06-01";
     mk_task_json 3 "File taxes" "Pending" "Urgent" "2024-06-01"].
Proof. reflexivity. Qed.

Example pay_rent_is_overdue :
  snd (reminders demo_store 1 june_1)
  = Ok (mk_reminders_json ["Pay rent"] ["File taxes"]).
Proof. reflexivity. Qed.

Example pay_rent_completed_disappears :
  snd (reminders (fst (complete_task demo_store 1 1)) 1 june_1)
  = Ok (mk_reminders_json [] ["File taxes"]).
Proof. reflexivity. Qed.

Example demo_stats :
  snd (stats demo_store 1) = Ok (mk_stats_json 0 2 0 0 1).
Proof. reflexivity. Qed.

Example demo_job :
  reminder_job demo_store june_1 = (demo_store, ["[REMINDER] 1 overdue tasks"])
  /\ reminder_job (fst (complete_task demo_store 1 1)) june_1
     = (fst (complete_task demo_store 1 1), []).
Proof. split; reflexivity. Qed.

Example demo_login :
  snd (login toy_check demo_store "alice" "wonderland") = Ok 1
  /\ snd (login toy_check demo_store "alice" "builder") = Err InvalidCredentials
  /\ snd (login toy_check demo_store "carol" "builder") = Err InvalidCredentials.
Proof. repeat split. Qed.

(** ** The theorems at concrete inputs *)

Lemma wf_demo_store : wf demo_store.
Proof. exact (wf_reachable toy_hash toy_check demo_requests). Qed.

Lemma user_isolation_witness :
  1 <> 2 /\ In pay_rent (tasks demo_store) /\ owned_by 1 pay_rent
  /\ complete_task demo_store 2 1 = (demo_store, Err NotFound)
  /\ own_tasks 2 (forget 1 demo_store) = own_tasks 2 demo_store.
Proof.
  assert (1 <> 2) as Hne by discriminate.
  assert (In pay_rent (tasks demo_store)) as Hin by (left; reflexivity).
  assert (owned_by 1 pay_rent) as Ho by reflexivity.
  destruct (@user_isolation demo_store 1 2 pay_rent wf_demo_store Hne Hin Ho)
    as (_ & _ & _ & Hforget & Hmiss & _).
  repeat split; assumption.
Defined.




Lemma complete_task_idempotent_witness :
  In pay_rent (tasks demo_store) /\ owned_by 1 pay_rent
  /\ snd (complete_task (fst (complete_task demo_store 1 1)) 1 1) = Ok "Completed"
  /\ fst (complete_task (fst (complete_task demo_store 1 1)) 1 1)
     = fst (complete_task demo_store 1 1).
Proof.
  assert (In pay_rent (tasks demo_store)) as Hin by (left; reflexivity).
  assert (owned_by 1 pay_rent) as Ho by reflexivity.
  destruct (@complete_task_idempotent demo_store 1 pay_rent Hin Ho) as (_ & H2 & H3 & _).
  repeat split; assumption.
Defined.

Lemma stats_counts_witness :
  Forall known_priority (own_tasks 2 demo_store)
  /\ exists s, stats demo_store 2 = (demo_store, Ok s) /\ Low s + Medium s + High s = 1.
Proof.
  assert (Forall known_priority (own_tasks 2 demo_store)) as Hk.
  { constructor; [left; reflexivity | constructor]. }
  destruct (stats_counts demo_store 2) as (s & E & _ & _ & _ & _ & _ & _ & _ & H).
  split; [exact Hk|]. exists s. split; [exact E|]. exact (H Hk).
Defined.

Lemma reminders_exact_witness :
  is_completed (Task.set_status "Completed" pay_rent)
  /\ exists late due,
       snd (reminders (fst (complete_task demo_store 1 1)) 1 june_1)
       = Ok (mk_reminders_json (map Task.title late) (map Task.title due))
       /\ ~ In (Task.set_status "Completed" pay_rent) late
       /\ ~ In (Task.set_status "Completed" pay_rent) due.
Proof.
  assert (is_completed (Task.set_status "Completed" pay_rent)) as Hc by reflexivity.
  destruct (reminders_exact (fst (complete_task demo_store 1 1)) 1 june_1)
    as (late & due & E & _ & _ & Hdone & _).
  split; [exact Hc|]. exists late, due.
  split; [rewrite E; reflexivity|]. exact (Hdone _ Hc).
Defined.


Lemma task_fields_immutable_witness :
  wf demo_store /\ In pay_rent (tasks demo_store)
  /\ (exists r', lookup_task (run toy_hash toy_check demo_store
                                 [CompleteTask 2 1; CreateTask 2 "Pay rent" "Low" "2025-01-01";
                                  CompleteTask 1 3]) 1 = Some r'
                  /\ same_but_status pay_rent r')
  /\ lookup_task (handle toy_hash toy_check demo_store (CompleteTask 2 1)) 1 = Some pay_rent.
Proof.
  assert (In pay_rent (tasks demo_store)) as Hin by (left; reflexivity).
  destruct (@task_fields_immutable toy_hash toy_check demo_store
              [CompleteTask 2 1; CreateTask 2 "Pay rent" "Low" "2025-01-01"; CompleteTask 1 3]
              pay_rent wf_demo_store Hin) as [(r' & L & S & _) Hframe].
  split; [exact wf_demo_store|]. split; [exact Hin|]. split.
  - exists r'. split; assumption.
  - destruct (Hframe 2 1) as (_ & _ & _ & Hother).
    apply Hother; [reflexivity | discriminate].
Defined.


(** * Further properties of the handlers *)

(** ** [login] *)

Lemma first_by_username (us : list User.t) u n :
  NoDup (map User.username us) -> In u us -> User.username u = n ->
  first (filter (username_is n) us) = Some u.
Proof.
  induction us as [|x us IH]; simpl; [contradiction|].
  intros Hnd [->|Hin] E; inversion Hnd as [|? ? Hx Hnd']; subst.
  - unfold username_is at 1. rewrite String.eqb_refl. reflexivity.
  - destruct (username_is (User.username u) x) eqn:Ex.
    + exfalso. apply String.eqb_eq in Ex. apply Hx. rewrite Ex.
      apply in_map. exact Hin.
    + apply IH; auto.
Qed.

Lemma first_by_username_none (us : list User.t) n :
  ~ In n (map User.username us) -> first (filter (username_is n) us) = None.
Proof.
  intros H. destruct (filter (username_is n) us) as [|u q] eqn:E; [reflexivity|].
  exfalso. apply H.
  assert (In u (filter (username_is n) us)) as Hu by (rewrite E; left; reflexivity).
  apply filter_In in Hu. destruct Hu as [Hin Hn]. apply String.eqb_eq in Hn.
  rewrite <- Hn. apply in_map. exact Hin.
Qed.

Lemma NoDup_map_inj {A B : Type} (f : A -> B) (l : list A) a b :
  NoDup (map f l) -> In a l -> In b l -> f a = f b -> a = b.
Proof.
  induction l as [|x l IH]; simpl; [contradiction|].
  intros Hnd [->|Ha] [->|Hb] E; inversion Hnd; subst; auto.
  - exfalso. rewrite E in *. auto using in_map.
  - exfalso. rewrite <- E in *. auto using in_map.
Qed.

Section Login.

Variable generate_password_hash : string -> string -> string.
Variable check_password_hash : string -> string -> bool.

Local Abbreviation handle := (handle generate_password_hash check_password_hash).
Local Abbreviation run := (run generate_password_hash check_password_hash).

Lemma login_ok_iff st u p i :
  NoDup (map User.username (users st)) ->
  snd (login check_password_hash st u p) = Ok i
  <-> exists user, In user (users st) /\ User.username user = u
                   /\ check_password_hash (User.password user) p = true
                   /\ User.id user = i.
Proof.
  intros Hnd. unfold login.
  destruct (first (filter (username_is u) (users st))) as [user|] eqn:E.
  - assert (In user (users st) /\ User.username user = u) as [Hin Hu].
    { apply first_in, filter_In in E. destruct E as [H1 H2].
      apply String.eqb_eq in H2. auto. }
    assert (forall user', In user' (users st) -> User.username user' = u -> user' = user)
      as Huniq.
    { intros user' Hin' Hu'. pose proof (@first_by_username (users st) user' u Hnd Hin' Hu') as E'.
      rewrite E in E'. congruence. }
    destruct (check_password_hash (User.password user) p) eqn:Ec; simpl.
    + split.
      * intros [= <-]. exists user. auto.
      * intros (user' & Hin' & Hu' & _ & <-). rewrite (Huniq user' Hin' Hu'). reflexivity.
    + split; [discriminate|].
      intros (user' & Hin' & Hu' & Hc' & _). rewrite (Huniq user' Hin' Hu') in Hc'. congruence.
  - simpl. split; [discriminate|].
    intros (user' & Hin' & Hu' & _). pose proof (@first_by_username (users st) user' u Hnd Hin' Hu') as E'.
    rewrite E in E'. discriminate.
Qed.

Lemma login_ok_or_401 st u p :
  (exists i, snd (login check_password_hash st u p) = Ok i)
  \/ snd (login check_password_hash st u p) = Err InvalidCredentials.
Proof.
  unfold login. destruct (first _) as [user|]; [|right; reflexivity].
  destruct (check_password_hash _ _); [left; eexists; reflexivity | right; reflexivity].
Qed.

(** [login] answers with an identity exactly when the user table has a
    row with that username whose stored hash verifies the password, and
    the identity is the id of that row; otherwise it answers
    InvalidCredentials.  It never changes the store, and two usernames
    never log in to the same identity. *)
Theorem login_identity st :
  wf st ->
  (forall u p i,
      snd (login check_password_hash st u p) = Ok i
      <-> exists user, In user (users st) /\ User.username user = u
                       /\ check_password_hash (User.password user) p = true
                       /\ User.id user = i)
  /\ (forall u p, (exists i, snd (login check_password_hash st u p) = Ok i)
                  \/ snd (login check_password_hash st u p) = Err InvalidCredentials)
  /\ (forall u p, fst (login check_password_hash st u p) = st)
  /\ (forall u p u' p' i,
        snd (login check_password_hash st u p) = Ok i ->
        snd (login check_password_hash st u' p') = Ok i -> u = u').
Proof.
  intros Hwf. split; [|split; [|split]].
  - intros u p i. apply login_ok_iff, Hwf.
  - apply login_ok_or_401.
  - intros u p. apply login_store.
  - intros u p u' p' i H H'.
    apply login_ok_iff in H; [|apply Hwf]. apply login_ok_iff in H'; [|apply Hwf].
    destruct H as (x & Hx & <- & _ & Ex), H' as (x' & Hx' & <- & _ & Ex').
    f_equal. eapply NoDup_map_inj with (f := User.id); [apply Hwf| | |]; congruence.
Qed.



End Login.

(** ** What every reachable store satisfies *)

Lemma sane_empty : sane empty_store.
Proof. constructor; constructor. Qed.

Lemma sane_create_task st uid t p d : sane st -> sane (fst (create_task st uid t p d)).
Proof.
  intros [H1 H2]. unfold create_task.
  destruct (Strptime.strptime d) as [dd|] eqn:E; [|constructor; assumption].
  destruct (existsb _ _); simpl; [|constructor; assumption].
  constructor; simpl; apply Forall_app; split; try assumption; repeat constructor.
  simpl. apply strptime_accepts in E. apply E.
Qed.

Lemma sane_complete_task st uid i : sane st -> sane (fst (complete_task st uid i)).
Proof.
  intros [H1 H2]. destruct (owns_dec st uid i) as [Hy|Hn].
  - rewrite (complete_task_found Hy). constructor; simpl; unfold mark_completed;
      apply Forall_map.
    + eapply Forall_impl; [|exact H1]. intros r Hr.
      destruct (Task.id r =? i); [right; reflexivity | exact Hr].
    + eapply Forall_impl; [|exact H2]. intros r Hr.
      destruct (Task.id r =? i); exact Hr.
  - rewrite (complete_task_missing Hn). constructor; assumption.
Qed.

Section Reachable.

Variable generate_password_hash : string -> string -> string.
Variable check_password_hash : string -> string -> bool.

Local Abbreviation handle := (handle generate_password_hash check_password_hash).
Local Abbreviation run := (run generate_password_hash check_password_hash).

Lemma sane_handle st req : sane st -> sane (handle st req).
Proof.
  intros H. destruct req as [n p s|n p|uid t p d|uid|uid i|uid|uid d|d]; simpl;
    auto using sane_create_task, sane_complete_task.
  - unfold register. destruct (existsb _ _); destruct H; constructor; assumption.
  - rewrite login_store. exact H.
  - rewrite reminder_job_store. exact H.
Qed.

Lemma sane_run rs : forall st, sane st -> sane (run st rs).
Proof.
  induction rs as [|req rs IH]; simpl; intros st H; [exact H|].
  apply IH, sane_handle, H.
Qed.

(** Whatever requests the service has handled since the database was
    created: primary keys and usernames are unique, every task belongs
    to a registered user, every status is Pending or Completed and every
    due date is a date of the calendar. *)
Theorem reachable_store_invariant rs :
  let st := run empty_store rs in
  NoDup (map User.id (users st))
  /\ NoDup (map User.username (users st))
  /\ NoDup (map Task.id (tasks st))
  /\ (forall r, In r (tasks st) ->
        In (Task.user_id r) (map User.id (users st))
        /\ known_status r
        /\ calendar_date (Task.due_date r)).
Proof.
  intros st.
  assert (wf st) as Hwf by (apply wf_run, wf_empty).
  assert (sane st) as Hs by (apply sane_run, sane_empty).
  destruct Hwf as [H1 H2 H3 _ _ H6], Hs as [S1 S2].
  rewrite Forall_forall in H6, S1, S2. repeat split; auto.
Qed.

End Reachable.

(** ** [GET /tasks] *)

Lemma listed_own st uid : listed st uid = map to_json (own_tasks uid st).
Proof.
  unfold listed, list_tasks. simpl. unfold all.
  rewrite query_filter_own, query_filter_nil. reflexivity.
Qed.

(** The rows of [GET /tasks] are the caller's tasks, one row each.  In a
    store whose rows have a known status and a calendar date, each row
    shows Pending or Completed and a due date in YYYY-MM-DD form that
    [create_task]'s parser reads back as the stored date. *)
Theorem listed_rows_read_back st uid :
  sane st ->
  List.length (listed st uid) = List.length (own_tasks uid st)
  /\ (forall r, In r (tasks st) -> owned_by uid r -> In (to_json r) (listed st uid))
  /\ (forall row, In row (listed st uid) ->
        exists r, In r (tasks st) /\ owned_by uid r /\ row = to_json r
                  /\ (j_status row = "Pending" \/ j_status row = "Completed")
                  /\ yyyy_mm_dd (j_due_date row)
                  /\ Strptime.strptime (j_due_date row) = Some (Task.due_date r)).
Proof.
  intros [S1 S2]. rewrite Forall_forall in S1, S2. rewrite listed_own.
  split; [apply length_map|]. split.
  - intros r Hin Ho. apply in_map. apply in_own_tasks. auto.
  - intros row Hrow. apply in_map_iff in Hrow. destruct Hrow as (r & <- & Hr).
    apply in_own_tasks in Hr. destruct Hr as [Hin Ho].
    exists r. split; [exact Hin|]. split; [exact Ho|]. split; [reflexivity|].
    split; [apply (S1 r Hin)|]. simpl.
    pose proof (S2 r Hin) as Hd. split.
    + exists (Task.due_date r). auto.
    + destruct (Task.due_date r) as [y m d]. apply strptime_isoformat. exact Hd.
Qed.


(** ** How the requests compose *)




Lemma stats_of_counts st uid :
  stats_of st uid
  = mk_stats_json
      (count (filter (status_is "Completed") (own_tasks uid st)))
      (count (own_tasks uid st) - count (filter (status_is "Completed") (own_tasks uid st)))
      (count (filter (priority_is "Low") (own_tasks uid st)))
      (count (filter (priority_is "Medium") (own_tasks uid st)))
      (count (filter (priority_is "High") (own_tasks uid st))).
Proof.
  unfold stats_of, stats. simpl.
  rewrite !query_filter_own, !query_filter_one, query_filter_nil. reflexivity.
Qed.



Lemma own_tasks_mark_completed st uid i :
  filter (fun r => Task.user_id r =? uid) (mark_completed i (tasks st))
  = mark_completed i (own_tasks uid st).
Proof.
  unfold own_tasks, mark_completed.
  induction (tasks st) as [|r l IH]; simpl; [reflexivity|].
  rewrite IH. destruct (Task.id r =? i) eqn:Ei; simpl;
    destruct (Task.user_id r =? uid); simpl; rewrite ?Ei; reflexivity.
Qed.

Lemma mark_completed_absent i l :
  (forall r, In r l -> Task.id r <> i) -> mark_completed i l = l.
Proof.
  intros H. unfold mark_completed. rewrite <- (map_id l) at 2.
  apply map_ext_in. intros r Hr.
  destruct (Z.eqb_spec (Task.id r) i) as [E|_]; [|reflexivity].
  exfalso. exact (H r Hr E).
Qed.

Lemma set_status_same r : Task.set_status (Task.status r) r = r.
Proof. destruct r; reflexivity. Qed.

Lemma NoDup_ids_filter (p : Task.t -> bool) l :
  NoDup (map Task.id l) -> NoDup (map Task.id (filter p l)).
Proof.
  induction l as [|r l IH]; simpl; [auto|].
  intros Hnd. inversion Hnd as [|? ? Hr Hl]; subst.
  destruct (p r); simpl; [|auto].
  constructor; [|auto]. intros Hin. apply Hr.
  apply in_map_iff in Hin. destruct Hin as (x & E & Hx).
  apply filter_In in Hx. rewrite <- E. apply in_map. apply Hx.
Qed.

(** One more row satisfies [p] after the row [r] has been completed, when
    it does so only once Completed. *)
Lemma count_after_mark (p : Task.t -> bool) l r :
  NoDup (map Task.id l) -> In r l ->
  p r = false -> p (Task.set_status "Completed" r) = true ->
  count (filter p (mark_completed (Task.id r) l)) = count (filter p l) + 1.
Proof.
  intros Hnd Hin Hp Hp'. unfold count.
  induction l as [|x l IH]; simpl in *; [contradiction|].
  inversion Hnd as [|? ? Hx Hl]; subst.
  destruct Hin as [->|Hin].
  - rewrite Z.eqb_refl, Hp, Hp'.
    fold (mark_completed (Task.id r) l). rewrite mark_completed_absent.
    + simpl List.length. lia.
    + intros y Hy E. apply Hx. rewrite <- E. apply in_map. exact Hy.
  - destruct (Z.eqb_spec (Task.id x) (Task.id r)) as [E|_].
    + exfalso. apply Hx. rewrite E. apply in_map. exact Hin.
    + fold (mark_completed (Task.id r) l).
      specialize (IH Hl Hin). destruct (p x); simpl List.length; lia.
Qed.

Lemma count_keep_mark (p : Task.t -> bool) i l :
  (forall r, p (Task.set_status "Completed" r) = p r) ->
  count (filter p (mark_completed i l)) = count (filter p l).
Proof.
  intros Hp. unfold count, mark_completed. f_equal.
  induction l as [|r l IH]; simpl; [reflexivity|].
  destruct (Task.id r =? i); rewrite ?Hp; destruct (p r); simpl; lia.
Qed.

(** Completing one's own task that was not Completed moves one unit from
    the pending to the completed count, and leaves the three priority
    counts and every other user's numbers as they were; completing a
    task that is already Completed leaves the store as it is. *)
Theorem stats_after_complete st uid r :
  wf st -> In r (tasks st) -> owned_by uid r ->
  let after := fst (complete_task st uid (Task.id r)) in
  (Task.status r <> "Completed" ->
     completed (stats_of after uid) = completed (stats_of st uid) + 1
     /\ pending (stats_of after uid) = pending (stats_of st uid) - 1
     /\ Low (stats_of after uid) = Low (stats_of st uid)
     /\ Medium (stats_of after uid) = Medium (stats_of st uid)
     /\ High (stats_of after uid) = High (stats_of st uid))
  /\ (forall other, other <> uid -> stats_of after other = stats_of st other)
  /\ (Task.status r = "Completed" -> after = st).
Proof.
  intros Hwf Hin Ho after.
  assert (owns st uid (Task.id r)) as Hy by (exists r; auto).
  assert (forall x, In x (tasks st) -> Task.id x = Task.id r -> x = r) as Huniq.
  { intros x Hx E. eapply same_key_same_row; [apply Hwf| | |]; eassumption. }
  assert (forall u, own_tasks u after = mark_completed (Task.id r) (own_tasks u st)) as Hown.
  { intros u. unfold after. rewrite (complete_task_found Hy). unfold own_tasks at 1. simpl.
    apply own_tasks_mark_completed. }
  split; [|split].
  - intros Hst. rewrite !stats_of_counts, !Hown. simpl.
    assert (count (mark_completed (Task.id r) (own_tasks uid st)) = count (own_tasks uid st))
      as -> by (unfold count, mark_completed; rewrite length_map; reflexivity).
    rewrite count_after_mark.
    + rewrite !count_keep_mark by reflexivity. repeat split; lia.
    + apply NoDup_ids_filter, Hwf.
    + apply in_own_tasks. auto.
    + apply String.eqb_neq. exact Hst.
    + reflexivity.
  - intros other Hne. rewrite !stats_of_counts, Hown.
    rewrite mark_completed_absent; [reflexivity|].
    intros x Hx E. apply in_own_tasks in Hx. destruct Hx as [Hx Hox].
    rewrite (Huniq x Hx E) in Hox. unfold owned_by in *. congruence.
  - intros Hst. unfold after. rewrite (complete_task_found Hy).
    assert (mark_completed (Task.id r) (tasks st) = tasks st) as ->; [|destruct st; reflexivity].
    unfold mark_completed. rewrite <- (map_id (tasks st)) at 2.
    apply map_ext_in. intros x Hx.
    destruct (Z.eqb_spec (Task.id x) (Task.id r)) as [E|_]; [|reflexivity].
    rewrite (Huniq x Hx E), <- Hst. apply set_status_same.
Qed.

Lemma filter_mark_completed (q : Task.t -> bool) i l :
  (forall r, q (Task.set_status "Completed" r) = false) ->
  filter q (mark_completed i l)
  = filter (fun r => negb (Task.id r =? i)) (filter q l).
Proof.
  intros Hq. unfold mark_completed.
  induction l as [|r l IH]; simpl; [reflexivity|].
  destruct (Task.id r =? i) eqn:Ei.
  - rewrite Hq, IH. destruct (q r); simpl; rewrite ?Ei; reflexivity.
  - rewrite IH. destruct (q r); simpl; rewrite ?Ei; reflexivity.
Qed.

(** After a user has completed one of their tasks, both reminder lists
    are the ones of before without that task. *)
Theorem reminders_after_complete st uid i today :
  owns st uid i ->
  let after := fst (complete_task st uid i) in
  exists late due,
    exactly (fun r => overdue_for uid today r /\ Task.id r <> i) (tasks st) late
    /\ exactly (fun r => due_today_for uid today r /\ Task.id r <> i) (tasks st) due
    /\ overdue_titles after uid today = map Task.title late
    /\ today_titles_of after uid today = map Task.title due.
Proof.
  intros Hy after.
  assert (tasks after = mark_completed i (tasks st)) as Htasks
    by (unfold after; rewrite (complete_task_found Hy); reflexivity).
  assert (forall (c3 : @criterion Task.t),
            query_filter [user_id_is uid; status_is_not "Completed"; c3] (tasks after)
            = filter (fun r => negb (Task.id r =? i))
                (query_filter [user_id_is uid; status_is_not "Completed"; c3] (tasks st)))
    as Hq.
  { intros c3. rewrite Htasks. unfold query_filter. apply filter_mark_completed.
    intros r. simpl. apply andb_false_r. }
  assert (forall (P : Task.t -> Prop) cs,
            (forall r, (forall c, In c cs -> c r = true) <-> P r) ->
            exactly (fun r => P r /\ Task.id r <> i) (tasks st)
                    (filter (fun r => negb (Task.id r =? i)) (query_filter cs (tasks st))))
    as Hex.
  { intros P cs HP. unfold query_filter. rewrite <- filter_andb.
    apply exactly_filter. intros r.
    rewrite andb_true_iff, negb_true_iff, Z.eqb_neq, forallb_forall, HP. reflexivity. }
  exists (filter (fun r => negb (Task.id r =? i))
            (query_filter [user_id_is uid; status_is_not "Completed"; due_before today]
                          (tasks st))),
         (filter (fun r => negb (Task.id r =? i))
            (query_filter [user_id_is uid; status_is_not "Completed"; due_on today]
                          (tasks st))).
  split; [apply Hex, overdue_for_criteria|]. split; [apply Hex, due_today_for_criteria|].
  unfold overdue_titles, today_titles_of, reminders. simpl. unfold all.
  rewrite !Hq. auto.
Qed.

(** ** [reminders], [stats] and the job agree *)

Lemma date_compare_cases a b :
  (Date.ltb a b = true /\ Date.eqb a b = false /\ Date.ltb b a = false)
  \/ (Date.ltb a b = false /\ Date.eqb a b = true /\ Date.ltb b a = false)
  \/ (Date.ltb a b = false /\ Date.eqb a b = false /\ Date.ltb b a = true).
Proof.
  assert (forall x y, Date.ltb x y = false <-> ~ Date.lt x y) as Hlt.
  { intros x y. rewrite <- date_ltb_lt. destruct (Date.ltb x y); split; congruence. }
  assert (Date.eqb a b = false <-> a <> b) as Heq.
  { rewrite <- date_eqb_eq. destruct (Date.eqb a b); split; congruence. }
  destruct (date_trichotomy a b) as [H|[H|H]].
  - left. split; [apply date_ltb_lt, H|]. split.
    + apply Heq. intros ->. exact (date_lt_irrefl H).
    + apply Hlt. intros H'. exact (date_lt_irrefl (date_lt_trans H H')).
  - right; left. subst b. split; [apply Hlt, date_lt_irrefl|].
    split; [apply date_eqb_eq; reflexivity | apply Hlt, date_lt_irrefl].
  - right; right. split; [|split; [|apply date_ltb_lt, H]].
    + apply Hlt. intros H'. exact (date_lt_irrefl (date_lt_trans H H')).
    + apply Heq. intros ->. exact (date_lt_irrefl H).
Qed.

Lemma count_three_way {A : Type} (p a b c : A -> bool) (l : list A) :
  (forall x, (a x = true /\ b x = false /\ c x = false)
             \/ (a x = false /\ b x = true /\ c x = false)
             \/ (a x = false /\ b x = false /\ c x = true)) ->
  count (filter (fun x => p x && a x) l) + count (filter (fun x => p x && b x) l)
  + count (filter (fun x => p x && c x) l) = count (filter p l).
Proof.
  intros H. unfold count. induction l as [|x l IH]; simpl; [reflexivity|].
  destruct (p x); simpl; [|exact IH].
  destruct (H x) as [(-> & -> & ->)|[(-> & -> & ->)|(-> & -> & ->)]];
    simpl List.length; lia.
Qed.

Lemma count_map {A B : Type} (f : A -> B) (l : list A) : count (map f l) = count l.
Proof. unfold count. rewrite length_map. reflexivity. Qed.

(** The pending count of [stats] is the number of the caller's tasks that
    [reminders] lists as overdue, plus those it lists for today, plus
    the caller's tasks not Completed that are due after today. *)
Theorem reminders_within_pending st uid today upcoming :
  exactly (fun r => owned_by uid r /\ ~ is_completed r /\ Date.lt today (Task.due_date r))
          (tasks st) upcoming ->
  count (overdue_titles st uid today) + count (today_titles_of st uid today)
  + count upcoming = pending (stats_of st uid).
Proof.
  intros Hup.
  set (p := fun r => user_id_is uid r && status_is_not "Completed" r).
  assert (count upcoming
          = count (filter (fun r => p r && Date.ltb today (Task.due_date r)) (tasks st))) as ->.
  { symmetry. eapply count_exactly; [|exact Hup]. intros r. unfold p.
    rewrite !andb_true_iff, user_id_is_true, (status_is_not_true "Completed"), date_ltb_lt.
    unfold is_completed. tauto. }
  assert (forall c : @criterion Task.t,
            query_filter [user_id_is uid; status_is_not "Completed"; c] (tasks st)
            = filter (fun r => p r && c r) (tasks st)) as Hq.
  { intros c. unfold query_filter, p. apply filter_ext. intros r. simpl.
    rewrite andb_true_r, andb_assoc. reflexivity. }
  rewrite stats_of_counts.
  unfold overdue_titles, today_titles_of, reminders. simpl. unfold all.
  rewrite !count_map, !Hq.
  rewrite (count_three_way p (due_before today) (due_on today)
             (fun r => Date.ltb today (Task.due_date r)))
    by (intros r; apply date_compare_cases).
  pose proof (count_split (status_is "Completed") (own_tasks uid st)) as Hsplit.
  assert (count (filter p (tasks st))
          = count (filter (fun r => negb (status_is "Completed" r)) (own_tasks uid st))) as ->.
  { unfold p, own_tasks. rewrite filter_andb. reflexivity. }
  lia.
Qed.









(** ** [init_db] *)

Lemma init_db_loop_success n attempt : forall j k,
  (j < n)%nat -> attempt (k + j)%nat = true ->
  (forall i, (i < j)%nat -> attempt (k + i)%nat = false) ->
  init_db_loop n attempt k = (rounds j ++ [CreateAll; Print "Database initialized"])%list.
Proof.
  induction n as [|n IH]; intros j k Hj Hok Hfail; [lia|].
  destruct j as [|j]; simpl.
  - rewrite Nat.add_0_r in Hok. rewrite Hok. reflexivity.
  - rewrite <- (Nat.add_0_r k) at 1. rewrite (Hfail 0%nat) by lia.
    do 3 f_equal. apply IH; [lia | |].
    + rewrite <- Hok. f_equal. lia.
    + intros i Hi. rewrite <- (Hfail (S i)) by lia. f_equal. lia.
Qed.

Lemma init_db_loop_gives_up n attempt : forall k,
  (forall i, (i < n)%nat -> attempt (k + i)%nat = false) ->
  init_db_loop n attempt k = rounds n.
Proof.
  induction n as [|n IH]; intros k Hfail; simpl; [reflexivity|].
  rewrite <- (Nat.add_0_r k) at 1. rewrite (Hfail 0%nat) by lia.
  do 3 f_equal. apply IH. intros i Hi. rewrite <- (Hfail (S i)) by lia. f_equal. lia.
Qed.

Lemma init_db_loop_bounds n attempt : forall k,
  (List.length (filter is_call (init_db_loop n attempt k)) <= n)%nat
  /\ (list_sum (map slept (init_db_loop n attempt k)) <= 3 * n)%nat.
Proof.
  induction n as [|n IH]; intros k; simpl; [lia|].
  destruct (attempt k); simpl; [lia|]. destruct (IH (S k)). lia.
Qed.

Lemma init_db_loop_initialized n attempt : forall k,
  In (Print "Database initialized") (init_db_loop n attempt k)
  <-> exists j, (j < n)%nat /\ attempt (k + j)%nat = true.
Proof.
  induction n as [|n IH]; intros k; simpl.
  - split; [contradiction | intros (j & Hj & _); lia].
  - destruct (attempt k) eqn:E; simpl.
    + split; [|auto]. intros _. exists 0%nat. rewrite Nat.add_0_r. split; [lia | exact E].
    + rewrite IH. split.
      * intros [H|[H|[H|(j & Hj & Hok)]]]; try discriminate.
        exists (S j). split; [lia|]. rewrite <- Hok. f_equal. lia.
      * intros (j & Hj & Hok). right; right; right.
        destruct j as [|j]; [rewrite Nat.add_0_r in Hok; congruence|].
        exists j. split; [lia|]. rewrite <- Hok. f_equal. lia.
Qed.

(** [init_db] calls [create_all] until the first success and at most
    five times, waiting three seconds after each failure.  It prints
    "Database initialized" exactly when one of those calls succeeds, as
    its last action; after five failures it returns all the same, having
    slept fifteen seconds. *)
Theorem init_db_retries attempt :
  (forall j, (j < 5)%nat -> attempt j = true ->
             (forall i, (i < j)%nat -> attempt i = false) ->
             init_db attempt
             = (rounds j ++ [CreateAll; Print "Database initialized"])%list)
  /\ ((forall i, (i < 5)%nat -> attempt i = false) -> init_db attempt = rounds 5)
  /\ (List.length (filter is_call (init_db attempt)) <= 5)%nat
  /\ (list_sum (map slept (init_db attempt)) <= 15)%nat
  /\ (In (Print "Database initialized") (init_db attempt)
      <-> exists j, (j < 5)%nat /\ attempt j = true).
Proof.
  unfold init_db. split; [|split; [|split; [|split]]].
  - intros j Hj Hok Hfail. apply init_db_loop_success; auto.
  - intros Hfail. apply init_db_loop_gives_up. auto.
  - apply init_db_loop_bounds.
  - apply (init_db_loop_bounds 5 attempt 0).
  - apply (init_db_loop_initialized 5 attempt 0).
Qed.

(** ** The further properties at concrete inputs *)

Lemma sane_demo_store : sane demo_store.
Proof. exact (sane_run toy_hash toy_check demo_requests sane_empty). Qed.

Lemma login_identity_witness :
  wf demo_store
  /\ snd (login toy_check demo_store "alice" "wonderland") = Ok 1
  /\ exists user, In user (users demo_store) /\ User.username user = "alice"
                  /\ User.id user = 1.
Proof.
  destruct (@login_identity toy_check demo_store wf_demo_store) as (Hiff & _).
  assert (snd (login toy_check demo_store "alice" "wonderland") = Ok 1) as H by reflexivity.
  split; [exact wf_demo_store|]. split; [exact H|].
  destruct (proj1 (Hiff "alice" "wonderland" 1) H) as (user & H1 & H2 & _ & H4).
  exists user. auto.
Defined.



Lemma reachable_store_invariant_witness :
  In pay_rent (tasks demo_store) /\ known_status pay_rent
  /\ calendar_date (Task.due_date pay_rent).
Proof.
  assert (In pay_rent (tasks demo_store)) as Hin by (left; reflexivity).
  destruct (reachable_store_invariant toy_hash toy_check demo_requests)
    as (_ & _ & _ & H).
  destruct (H pay_rent Hin) as (_ & H2 & H3). auto.
Defined.

Lemma listed_rows_read_back_witness :
  sane demo_store
  /\ In (to_json pay_rent) (listed demo_store 1)
  /\ exists r, Strptime.strptime "2024-01-01" = Some (Task.due_date r).
Proof.
  destruct (@listed_rows_read_back demo_store 1 sane_demo_store) as (_ & Hall & Hrow).
  assert (In (to_json pay_rent) (listed demo_store 1)) as Hin
    by (apply Hall; [left; reflexivity | reflexivity]).
  split; [exact sane_demo_store|]. split; [exact Hin|].
  destruct (Hrow _ Hin) as (r & _ & _ & _ & _ & _ & H). exists r. exact H.
Defined.



Lemma stats_after_complete_witness :
  In pay_rent (tasks demo_store) /\ owned_by 1 pay_rent
  /\ Task.status pay_rent <> "Completed"
  /\ completed (stats_of (fst (complete_task demo_store 1 1)) 1)
     = completed (stats_of demo_store 1) + 1.
Proof.
  assert (In pay_rent (tasks demo_store)) as Hin by (left; reflexivity).
  assert (owned_by 1 pay_rent) as Ho by reflexivity.
  assert (Task.status pay_rent <> "Completed") as Hst by discriminate.
  destruct (@stats_after_complete demo_store 1 pay_rent wf_demo_store Hin Ho) as (H & _).
  split; [exact Hin|]. split; [exact Ho|]. split; [exact Hst|]. exact (proj1 (H Hst)).
Defined.

Lemma reminders_after_complete_witness :
  owns demo_store 1 1
  /\ exists late due,
       overdue_titles (fst (complete_task demo_store 1 1)) 1 june_1 = map Task.title late
       /\ today_titles_of (fst (complete_task demo_store 1 1)) 1 june_1 = map Task.title due.
Proof.
  assert (owns demo_store 1 1) as Ho.
  { exists pay_rent. split; [left; reflexivity|]. split; reflexivity. }
  destruct (@reminders_after_complete demo_store 1 1 june_1 Ho) as (late & due & _ & _ & H1 & H2).
  split; [exact Ho|]. exists late, due. auto.
Defined.

Lemma reminders_within_pending_witness :
  exactly (fun r => owned_by 1 r /\ ~ is_completed r /\ Date.lt june_1 (Task.due_date r))
          (tasks demo_store) []
  /\ count (overdue_titles demo_store 1 june_1) + count (today_titles_of demo_store 1 june_1)
     + 0 = pending (stats_of demo_store 1).
Proof.
  assert (exactly (fun r => owned_by 1 r /\ ~ is_completed r
                            /\ Date.lt june_1 (Task.due_date r))
                  (tasks demo_store) []) as Hex.
  { apply (@exactly_filter _ _
             (fun r => user_id_is 1 r && status_is_not "Completed" r
                       && Date.ltb june_1 (Task.due_date r)) (tasks demo_store)).
    intros r. rewrite !andb_true_iff, user_id_is_true, (status_is_not_true "Completed"),
      date_ltb_lt. unfold is_completed. tauto. }
  split; [exact Hex|]. exact (@reminders_within_pending demo_store 1 june_1 [] Hex).
Defined.


Lemma init_db_retries_witness :
  init_db (fun k => (2 <=? k)%nat)
  = (rounds 2 ++ [CreateAll; Print "Database initialized"])%list
  /\ init_db (fun _ => false) = rounds 5.
Proof.
  split.
  - apply (proj1 (init_db_retries (fun k => (2 <=? k)%nat))); [lia | reflexivity|].
    intros i Hi. apply Nat.leb_gt. exact Hi.
  - apply (proj1 (proj2 (init_db_retries (fun _ => false)))). reflexivity.
Defined.
